(** * AVIF converter service (app.py): shallow embedding and properties

    The service is a FastAPI application with one conversion routine,
    [_to_avif_bytes], and two handlers, [convert_file_to_avif] and
    [convert_url_to_avif].  Pillow, the AVIF encoder and httpx are
    external collaborators: their operations are the fields of the class
    [Collab], and every call to one of them is recorded in a trace. *)

From Stdlib Require Import ZArith NArith List Bool Ascii String Lia Sorted.
From Stdlib Require Import Floats.SpecFloat.
Import ListNotations.

Local Open Scope Z_scope.

(** ** Python values *)

Module Py.

(** A Python [str] is a sequence of Unicode code points. *)
Definition str := list N.

(** ASCII literals of the source. *)
Definition lit (s : string) : str :=
  List.map N_of_ascii (list_ascii_of_string s).

Fixpoint str_eqb (a b : str) : bool :=
  match a, b with
  | [], [] => true
  | x :: a', y :: b' => N.eqb x y && str_eqb a' b'
  | _, _ => false
  end.

(** [x in (a, b, ...)] and [x in {a, b, ...}] on strings. *)
Definition str_in (x : str) (xs : list str) : bool :=
  existsb (str_eqb x) xs.

Definition bytes := list Byte.byte.

(** Exception classes that can reach the handlers' [except] clauses. *)
Inductive exc_class :=
| ZeroDivisionError | OverflowError | ValueError | TypeError
| UnidentifiedImageError | OSError | RuntimeError
| HTTPStatusError
| ConnectError | ReadError | WriteError | CloseError
| ConnectTimeout | ReadTimeout | WriteTimeout | PoolTimeout
| LocalProtocolError | RemoteProtocolError
| ProxyError | UnsupportedProtocol | DecodingError | TooManyRedirects
| InvalidURL | CookieConflict | StreamError.

(** [issubclass(c, httpx.HTTPError)]: [HTTPStatusError] and the
    [RequestError] family; [InvalidURL], [CookieConflict] and the stream
    errors derive from [Exception] directly. *)
Definition is_HTTPError (c : exc_class) : bool :=
  match c with
  | HTTPStatusError
  | ConnectError | ReadError | WriteError | CloseError
  | ConnectTimeout | ReadTimeout | WriteTimeout | PoolTimeout
  | LocalProtocolError | RemoteProtocolError
  | ProxyError | UnsupportedProtocol | DecodingError | TooManyRedirects => true
  | _ => false
  end.

(** An exception object: its class and [str(e)]. *)
Record exn := mk_exn { exc_cls : exc_class; exc_str : str }.

(** The result of a call: a value or a raised exception. *)
Inductive outcome (A : Type) :=
| Ret (a : A)
| Raise (e : exn).
Arguments Ret {A} a.
Arguments Raise {A} e.

(** Truthiness of an [Optional[int]]: [None] and [0] are false. *)
Definition truthy (x : option Z) : bool :=
  match x with
  | None => false
  | Some n => negb (n =? 0)
  end.

(** [x or y] on [Optional[int]] operands. *)
Definition or_ (x y : option Z) : option Z :=
  if truthy x then x else y.

(** *** Floats: IEEE 754 binary64 *)

Definition prec : Z := 53.
Definition emax : Z := 1024.

Definition float := spec_float.

(** An integer as an exact (unrounded) dyadic number. *)
Definition exact (n : Z) : spec_float :=
  match n with
  | Z0 => S754_zero false
  | Zpos p => S754_finite false p 0
  | Zneg p => S754_finite true p 0
  end.

Definition is_inf (f : float) : bool :=
  match f with S754_infinity _ => true | _ => false end.

(** [a / b] on two ints: the correctly rounded quotient;
    [ZeroDivisionError] on a zero divisor, [OverflowError] when the
    quotient exceeds the float range. *)
Definition int_truediv (a b : Z) : outcome float :=
  if b =? 0 then Raise (mk_exn ZeroDivisionError (lit "division by zero"))
  else
    let q := SFdiv prec emax (exact a) (exact b) in
    if is_inf q
    then Raise (mk_exn OverflowError
                  (lit "integer division result too large for a float"))
    else Ret q.

(** [x / b] where [x] is an [Optional[int]]: [None / b] is a [TypeError]. *)
Definition truediv (x : option Z) (b : Z) : outcome float :=
  match x with
  | None => Raise (mk_exn TypeError
              (lit "unsupported operand type(s) for /: 'NoneType' and 'int'"))
  | Some a => int_truediv a b
  end.

(** [float(n)], rounding to nearest even; [OverflowError] out of range. *)
Definition float_of_int (n : Z) : outcome float :=
  let f := binary_normalize prec emax n 0 false in
  if is_inf f
  then Raise (mk_exn OverflowError (lit "int too large to convert to float"))
  else Ret f.

(** [n * f] for an int [n] and a float [f]. *)
Definition int_mul_float (n : Z) (f : float) : outcome float :=
  match float_of_int n with
  | Raise e => Raise e
  | Ret x => Ret (SFmul prec emax x f)
  end.

(** The integer part of a finite float, towards zero. *)
Definition trunc (f : float) : option Z :=
  match f with
  | S754_zero _ => Some 0
  | S754_finite s m e =>
      let a := match e with
               | Zneg p => Z.shiftr (Zpos m) (Zpos p)
               | _ => Z.shiftl (Zpos m) e
               end in
      Some (if s then - a else a)
  | _ => None
  end.

(** [int(f)]. *)
Definition int_ (f : float) : outcome Z :=
  match f with
  | S754_infinity _ =>
      Raise (mk_exn OverflowError (lit "cannot convert float infinity to integer"))
  | S754_nan =>
      Raise (mk_exn ValueError (lit "cannot convert float NaN to integer"))
  | _ => match trunc f with
         | Some n => Ret n
         | None => Raise (mk_exn ValueError (lit "cannot convert float NaN to integer"))
         end
  end.

(** *** String methods *)

(** [s.rsplit(sep, 1)] for a one-character separator: the parts around
    the last occurrence of [sep], if there is one. *)
Fixpoint rsplit_last (sep : N) (s : str) : option (str * str) :=
  match s with
  | [] => None
  | c :: r =>
      match rsplit_last sep r with
      | Some (a, b) => Some (c :: a, b)
      | None => if N.eqb c sep then Some ([], r) else None
      end
  end.

Definition rsplit1 (sep : N) (s : str) : list str :=
  match rsplit_last sep s with
  | Some (a, b) => [a; b]
  | None => [s]
  end.

(** [s.split(sep)[0]] for a one-character separator. *)
Fixpoint split_head (sep : N) (s : str) : str :=
  match s with
  | [] => []
  | c :: r => if N.eqb c sep then [] else c :: split_head sep r
  end.

(** [str.isspace] on one code point. *)
Definition is_space (c : N) : bool :=
  ((9 <=? c) && (c <=? 13) || (28 <=? c) && (c <=? 32)
   || (c =? 133) || (c =? 160) || (c =? 5760)
   || (8192 <=? c) && (c <=? 8202)
   || (c =? 8232) || (c =? 8233) || (c =? 8239) || (c =? 8287)
   || (c =? 12288))%N.

Fixpoint lstrip (s : str) : str :=
  match s with
  | c :: r => if is_space c then lstrip r else s
  | [] => []
  end.

(** [s.strip()]. *)
Definition strip (s : str) : str := rev (lstrip (rev (lstrip s))).

End Py.

Import Py.

(** ** The regular-expression engine, for the fragment the service uses

    Patterns are ASCII literals with [^] and a postfix [?]; matching is
    anchored at the start of the subject, as [re.match] does. *)

Module Sre.

(** The simple lower-case mapping.  It is exact on every code point whose
    lower case is ASCII; the other rows of the Unicode table are left
    out, which an ASCII pattern cannot observe. *)
Definition lower_unicode (ch : N) : N :=
  (if (65 <=? ch) && (ch <=? 90) then ch + 32
   else if ch =? 304 then 105
   else if ch =? 8490 then 107
   else ch)%N.

(** Cased pattern characters: the ASCII letters. *)
Definition iscased (c : N) : bool :=
  ((65 <=? c) && (c <=? 90) || (97 <=? c) && (c <=? 122))%N.

(** The extra members of a lower-case letter's equivalence class: dotless
    i for [i] and long s for [s]. *)
Definition fixes (lo : N) : list N :=
  (if lo =? 105 then [305] else if lo =? 115 then [383] else [])%N.

Inductive atom :=
| LITERAL (c : N)
| LITERAL_UNI_IGNORE (lo : N)
| IN_UNI_IGNORE (set : list N).

Inductive op :=
| AT_BEGINNING
| ATOM (a : atom)
| MAX_REPEAT_0_1 (a : atom).

Definition compile_char (ignorecase : bool) (c : N) : atom :=
  if ignorecase && iscased c then
    let lo := lower_unicode c in
    match fixes lo with
    | [] => LITERAL_UNI_IGNORE lo
    | fx => IN_UNI_IGNORE (lo :: fx)
    end
  else LITERAL c.

Fixpoint compile (ignorecase : bool) (p : str) : list op :=
  match p with
  | [] => []
  | c :: r =>
      if N.eqb c 94 then AT_BEGINNING :: compile ignorecase r
      else
        match r with
        | q :: r' =>
            if N.eqb q 63
            then MAX_REPEAT_0_1 (compile_char ignorecase c) :: compile ignorecase r'
            else ATOM (compile_char ignorecase c) :: compile ignorecase r
        | [] => [ATOM (compile_char ignorecase c)]
        end
  end.

Definition accepts (a : atom) (ch : N) : bool :=
  match a with
  | LITERAL c => N.eqb ch c
  | LITERAL_UNI_IGNORE lo => N.eqb (lower_unicode ch) lo
  | IN_UNI_IGNORE set => existsb (N.eqb (lower_unicode ch)) set
  end.

(** Greedy matching with backtracking; [at_start] says whether the
    current position is the start of the subject. *)
Fixpoint run (ops : list op) (at_start : bool) (s : str) : bool :=
  match ops with
  | [] => true
  | AT_BEGINNING :: r => at_start && run r at_start s
  | ATOM a :: r =>
      match s with
      | ch :: s' => accepts a ch && run r false s'
      | [] => false
      end
  | MAX_REPEAT_0_1 a :: r =>
      match s with
      | ch :: s' => accepts a ch && run r false s'
      | [] => false
      end
      || run r at_start s
  end.

(** [re.match(pattern, s, flags=re.I)] as a truth value. *)
Definition match_I (pattern s : str) : bool :=
  run (compile true pattern) true s.

(** A subject character equals a pattern character, letter case ignored. *)
Definition same_char_I (c ch : N) : Prop :=
  accepts (compile_char true c) ch = true.

End Sre.

(** ** External collaborators *)

Inductive resample := NEAREST | BOX | BILINEAR | HAMMING | BICUBIC | LANCZOS.

Inductive pyval :=
| VStr (s : str)
| VBool (b : bool)
| VInt (n : Z).

(** An [httpx.Response], as far as the handler looks at it. *)
Record httpx_response := mk_httpx_response {
  status_code : Z;
  header_content_type : option str;
  content : bytes
}.

(** A FastAPI [UploadFile]: declared content type, file name, and what
    [await file.read()] yields. *)
Record UploadFile := mk_UploadFile {
  content_type : option str;
  filename : option str;
  read : outcome bytes
}.

(** Pillow with the AVIF plug-in, and the httpx client. *)
Class Collab : Type := {
  image : Type;
  Image_open : bytes -> outcome image;
  mode : image -> str;
  size : image -> Z * Z;
  convert : image -> str -> outcome image;
  resize : image -> Z * Z -> resample -> outcome image;
  save : image -> list (str * pyval) -> outcome bytes;
  client_get : float -> bool -> str -> outcome httpx_response;
  status_error_message : httpx_response -> str;
  str_lower : str -> str
}.

(** What the development relies on about Pillow: [convert] yields the
    requested mode and keeps the size, [resize] yields the requested size
    and keeps the mode, and [resize] to a different size needs both target
    dimensions positive. *)
Class PillowLaws `{Collab} : Prop := {
  convert_mode : forall i m i', convert i m = Ret i' -> mode i' = m;
  convert_size : forall i m i', convert i m = Ret i' -> size i' = size i;
  resize_size : forall i sz f i', resize i sz f = Ret i' -> size i' = sz;
  resize_mode : forall i sz f i', resize i sz f = Ret i' -> mode i' = mode i;
  resize_positive : forall i tw th f i',
      resize i (tw, th) f = Ret i' -> size i <> (tw, th) -> 1 <= tw /\ 1 <= th
}.

(** ** Effects: a trace of external calls, and exceptions *)

Section App.

Context `{Collab}.

Inductive event :=
| EvRead (f : UploadFile)
| EvGet (timeout : float) (follow_redirects : bool) (url : str)
| EvOpen (data : bytes)
| EvConvert (img : image) (m : str)
| EvResize (img : image) (sz : Z * Z) (f : resample)
| EvSave (img : image) (params : list (str * pyval)).

Definition M (A : Type) : Type := list event * outcome A.

Definition ret {A} (a : A) : M A := ([], Ret a).

Definition bind {A B} (m : M A) (k : A -> M B) : M B :=
  match m with
  | (t, Ret a) => let '(t', o) := k a in (t ++ t', o)
  | (t, Raise e) => (t, Raise e)
  end.

Definition call {A} (ev : event) (o : outcome A) : M A := ([ev], o).

Definition pure_ {A} (o : outcome A) : M A := ([], o).

End App.

Notation "x <- c1 ;; c2" := (bind c1 (fun x => c2))
  (at level 61, c1 at next level, right associativity).

(** ** The program *)

(** A FastAPI [Response]. *)
Record Response := mk_Response {
  resp_status : Z;
  resp_content : bytes;
  media_type : str;
  headers : list (str * str)
}.

(** What a handler hands back to the framework: a response, or a raised
    [HTTPException]. *)
Inductive reply :=
| Reply (r : Response)
| HTTPException (status : Z) (detail : str).

Definition quote : str := [34%N].

Definition image_types : list str :=
  [lit "image/jpeg"; lit "image/jpg"; lit "image/png"; lit "image/webp"].

Section Program.

Context `{Collab}.

(** [int(a * (x / b))] with Python's evaluation order. *)
Definition scaled (a : Z) (x : option Z) (b : Z) : M Z :=
  q <- pure_ (truediv x b) ;;
  p <- pure_ (int_mul_float a q) ;;
  pure_ (int_ p).

(** [x or int(a * (y / b))]: the right operand is evaluated only when
    [x] is false. *)
Definition or_scaled (x : option Z) (a : Z) (y : option Z) (b : Z) : M Z :=
  match x with
  | Some n => if n =? 0 then scaled a y b else ret n
  | None => scaled a y b
  end.

Definition _to_avif_bytes (data : bytes) (quality : Z) (lossless : bool)
    (width height : option Z) : M bytes :=
  img <- call (EvOpen data) (Image_open data) ;;
  img <- (if str_in (mode img) [lit "P"; lit "LA"]
          then call (EvConvert img (lit "RGBA")) (convert img (lit "RGBA"))
          else if negb (str_in (mode img) [lit "RGB"; lit "RGBA"])
          then call (EvConvert img (lit "RGBA")) (convert img (lit "RGBA"))
          else ret img) ;;
  img <- (if truthy (or_ width height)
          then
            let '(w, h) := size img in
            target_w <- or_scaled width w height h ;;
            target_h <- or_scaled height h width w ;;
            call (EvResize img (target_w, target_h) LANCZOS)
                 (resize img (target_w, target_h) LANCZOS)
          else ret img) ;;
  let save_params := [(lit "format", VStr (lit "AVIF"))] in
  let save_params :=
    if lossless
    then save_params ++ [(lit "lossless", VBool true)]
    else save_params ++ [(lit "quality", VInt quality)] in
  call (EvSave img save_params) (save img save_params).

(** [x in image_types] for an optional string. *)
Definition is_image_type (x : option str) : bool :=
  match x with
  | Some s => str_in s image_types
  | None => false
  end.

(** [(file.filename or "image").rsplit(".", 1)[0]] *)
Definition base_name (fn : option str) : str :=
  let name := match fn with
              | Some (c :: r) => c :: r
              | _ => lit "image"
              end in
  hd [] (rsplit1 46%N name).

Definition convert_file_to_avif (file : UploadFile) (quality : Z)
    (lossless : bool) (width height : option Z) : list event * reply :=
  if negb (is_image_type (content_type file))
  then ([], HTTPException 415 (lit "Only JPEG/JPG/PNG/WEBP are accepted."))
  else
    let body :=
      data <- call (EvRead file) (read file) ;;
      avif <- _to_avif_bytes data quality lossless width height ;;
      let base := base_name (filename file) in
      let hs := [(lit "Content-Disposition",
                  lit "attachment; filename=" ++ quote ++ base
                    ++ lit ".avif" ++ quote)] in
      ret (mk_Response 200 avif (lit "image/avif") hs) in
    match body with
    | (t, Ret r) => (t, Reply r)
    | (t, Raise e) => (t, HTTPException 500 (exc_str e))
    end.

(** [resp.raise_for_status()]: an [HTTPStatusError] unless the status is
    2xx. *)
Definition raise_for_status (resp : httpx_response) : outcome unit :=
  if (200 <=? status_code resp) && (status_code resp <=? 299)
  then Ret tt
  else Raise (mk_exn HTTPStatusError (status_error_message resp)).

(** [resp.headers.get("content-type", "").split(";")[0].strip().lower()] *)
Definition fetched_content_type (resp : httpx_response) : str :=
  let v := match header_content_type resp with
           | Some s => s
           | None => []
           end in
  str_lower (strip (split_head 59%N v)).

Definition convert_url_to_avif (url : str) (quality : Z) (lossless : bool)
    (width height : option Z) (timeout : float) : list event * reply :=
  if negb (Sre.match_I (lit "^https?://") url)
  then ([], HTTPException 400 (lit "Invalid URL."))
  else
    let body :=
      resp <- call (EvGet timeout true url) (client_get timeout true url) ;;
      _ <- pure_ (raise_for_status resp) ;;
      let content_type := fetched_content_type resp in
      _ <- (if negb (str_in content_type image_types)
            then ret tt
            else ret tt) ;;
      avif <- _to_avif_bytes (content resp) quality lossless width height ;;
      let hs := [(lit "Content-Disposition",
                  lit "attachment; filename=" ++ quote ++ lit "image.avif"
                    ++ quote)] in
      ret (mk_Response 200 avif (lit "image/avif") hs) in
    match body with
    | (t, Ret r) => (t, Reply r)
    | (t, Raise e) =>
        if is_HTTPError (exc_cls e)
        then (t, HTTPException 502 (lit "Fetch failed: " ++ exc_str e))
        else (t, HTTPException 500 (exc_str e))
    end.

Definition root : list (str * pyval) :=
  [(lit "ok", VBool true);
   (lit "service", VStr (lit "avif-converter"));
   (lit "version", VStr (lit "1.0.0"))].

End Program.

(** ** Reading a trace *)

Section Traces.

Context `{Collab}.

Fixpoint convert_calls (t : list event) : list (image * str) :=
  match t with
  | [] => []
  | EvConvert i m :: r => (i, m) :: convert_calls r
  | _ :: r => convert_calls r
  end.

Fixpoint resize_calls (t : list event) : list (image * (Z * Z) * resample) :=
  match t with
  | [] => []
  | EvResize i sz f :: r => (i, sz, f) :: resize_calls r
  | _ :: r => resize_calls r
  end.

Fixpoint encoder_calls (t : list event) : list (image * list (str * pyval)) :=
  match t with
  | [] => []
  | EvSave i ps :: r => (i, ps) :: encoder_calls r
  | _ :: r => encoder_calls r
  end.

(** The image was resized once, to [sz], with the Lanczos filter. *)
Definition resized_to (t : list event) (sz : Z * Z) : Prop :=
  exists i, resize_calls t = [(i, sz, LANCZOS)].

(** The encoder was called once, on an image of size [sz]. *)
Definition encoded_size (t : list event) (sz : Z * Z) : Prop :=
  exists i ps, encoder_calls t = [(i, ps)] /\ size i = sz.

(** The stages of [_to_avif_bytes], named for the proofs. *)
Definition normalize_mode (img : image) : M image :=
  if str_in (mode img) [lit "P"; lit "LA"]
  then call (EvConvert img (lit "RGBA")) (convert img (lit "RGBA"))
  else if negb (str_in (mode img) [lit "RGB"; lit "RGBA"])
  then call (EvConvert img (lit "RGBA")) (convert img (lit "RGBA"))
  else ret img.

Definition optional_resize (width height : option Z) (img : image) : M image :=
  if truthy (or_ width height)
  then
    let '(w, h) := size img in
    target_w <- or_scaled width w height h ;;
    target_h <- or_scaled height h width w ;;
    call (EvResize img (target_w, target_h) LANCZOS)
         (resize img (target_w, target_h) LANCZOS)
  else ret img.

Definition save_params (quality : Z) (lossless : bool) : list (str * pyval) :=
  if lossless
  then [(lit "format", VStr (lit "AVIF")); (lit "lossless", VBool true)]
  else [(lit "format", VStr (lit "AVIF")); (lit "quality", VInt quality)].

Definition encode (quality : Z) (lossless : bool) (img : image) : M bytes :=
  call (EvSave img (save_params quality lossless))
       (save img (save_params quality lossless)).

(** [i1] is the image after mode normalization: the decoded image itself
    when its mode is RGB or RGBA, else the result of a successful
    conversion to RGBA. *)
Definition normalizes_to (img i1 : image) : Prop :=
  ((mode img = lit "RGB" \/ mode img = lit "RGBA") /\ i1 = img)
  \/ (~ (mode img = lit "RGB" \/ mode img = lit "RGBA")
      /\ convert img (lit "RGBA") = Ret i1).

(** The rest of a run once the image [i1] is normalized, [t1] being the
    calls made so far after the decode. *)
Definition finish (data : bytes) (quality : Z) (lossless : bool)
    (width height : option Z) (t1 : list event) (i1 : image) : M bytes :=
  match optional_resize width height i1 with
  | (t2, Raise e) => (EvOpen data :: t1 ++ t2, Raise e)
  | (t2, Ret i2) =>
      (EvOpen data :: t1 ++ t2 ++ [EvSave i2 (save_params quality lossless)],
       save i2 (save_params quality lossless))
  end.

End Traces.

(** ** The specification's vocabulary *)

(** The integer truncation of the binary64 value of
    [orig * (given / opp)]; [None] when that value is not finite. *)
Definition proportional (orig given opp : Z) : option Z :=
  trunc (SFmul prec emax (binary_normalize prec emax orig 0 false)
           (SFdiv prec emax (exact given) (exact opp))).

(** [s] begins with the characters of [p], letter case ignored. *)
Definition begins_with_I (p s : str) : Prop :=
  exists pre rest, s = pre ++ rest /\ Forall2 Sre.same_char_I p pre.

(** The encoder's keyword arguments of a lossless request. *)
Definition lossless_params : list (str * pyval) :=
  [(lit "format", VStr (lit "AVIF")); (lit "lossless", VBool true)].

(** The reply of the URL handler's two [except] clauses. *)
Definition url_error_reply (e : exn) : reply :=
  if is_HTTPError (exc_cls e)
  then HTTPException 502 (lit "Fetch failed: " ++ exc_str e)
  else HTTPException 500 (exc_str e).

(** The reply of the URL handler after a successful conversion. *)
Definition url_success_reply (avif : bytes) : reply :=
  Reply (mk_Response 200 avif (lit "image/avif")
           [(lit "Content-Disposition",
             lit "attachment; filename=" ++ quote ++ lit "image.avif" ++ quote)]).

(** The same test as a function. *)
Fixpoint prefix_I (p s : str) : bool :=
  match p, s with
  | [], _ => true
  | c :: p', ch :: s' => Sre.accepts (Sre.compile_char true c) ch && prefix_I p' s'
  | _ :: _, [] => false
  end.

Definition http_scheme (url : str) : Prop :=
  begins_with_I (lit "http://") url \/ begins_with_I (lit "https://") url.

Definition dot : N := 46%N.

Definition content_disposition (base : str) : str :=
  lit "attachment; filename=" ++ quote ++ base ++ lit ".avif" ++ quote.

(** ** Vocabulary of the further properties *)

(** A dimension of zero read as an absent one. *)
Definition drop_zero (x : option Z) : option Z :=
  match x with
  | Some 0 => None
  | _ => x
  end.

(** The place of a call within a request: read or fetch, then open,
    convert, resize, save. *)
Definition rank `{Collab} (ev : event) : nat :=
  match ev with
  | EvRead _ => 0
  | EvGet _ _ _ => 0
  | EvOpen _ => 1
  | EvConvert _ _ => 2
  | EvResize _ _ _ => 3
  | EvSave _ _ => 4
  end%nat.

(** The calls of a trace come in that order, each at most once. *)
Definition in_order `{Collab} (t : list event) : Prop :=
  StronglySorted lt (List.map rank t).

(** The characters of the accepted content types: lower-case letters and
    the slash. *)
Definition plain_type_char (c : N) : bool :=
  ((97 <=? c) && (c <=? 122) || (c =? 47))%N.

(** A float that is not negative (or is not a number). *)
Definition not_negative (f : float) : Prop :=
  match f with
  | S754_zero s => s = false
  | S754_infinity s => s = false
  | S754_finite s _ _ => s = false
  | S754_nan => True
  end.


(** ** A small simulated set of collaborators, to run the program on

    An image file is five bytes: a mode tag, then width and height as two
    big-endian bytes each. *)

Module Sim.

Record img := mk_img { i_mode : str; i_size : Z * Z }.

Definition word (hi lo : Byte.byte) : Z :=
  Z.of_N (Byte.to_N hi) * 256 + Z.of_N (Byte.to_N lo).

Definition mode_of_tag (b : Byte.byte) : option str :=
  match Byte.to_N b with
  | 0%N => Some (lit "RGB")
  | 1%N => Some (lit "RGBA")
  | 2%N => Some (lit "P")
  | 3%N => Some (lit "LA")
  | 4%N => Some (lit "L")
  | _ => None
  end.

Definition open (data : bytes) : outcome img :=
  match data with
  | [t; w1; w0; h1; h0] =>
      match mode_of_tag t with
      | Some m => Ret (mk_img m (word w1 w0, word h1 h0))
      | None => Raise (mk_exn UnidentifiedImageError (lit "cannot identify image file"))
      end
  | _ => Raise (mk_exn UnidentifiedImageError (lit "cannot identify image file"))
  end.

Definition pair_eqb (a b : Z * Z) : bool :=
  (fst a =? fst b) && (snd a =? snd b).

Definition do_resize (i : img) (sz : Z * Z) (f : resample) : outcome img :=
  if pair_eqb (i_size i) sz then Ret i
  else if (1 <=? fst sz) && (1 <=? snd sz) then Ret (mk_img (i_mode i) sz)
  else Raise (mk_exn ValueError (lit "height and width must be > 0")).

Definition byte_of (n : Z) : Byte.byte :=
  match Byte.of_N (Z.to_N (n mod 256)) with
  | Some b => b
  | None => Byte.x00
  end.

Definition do_save (i : img) (ps : list (str * pyval)) : outcome bytes :=
  Ret (byte_of (Z.of_nat (List.length (i_mode i)))
       :: byte_of (fst (i_size i)) :: byte_of (snd (i_size i))
       :: List.map (fun p => match snd p with
                             | VInt n => byte_of n
                             | VBool b => if b then Byte.x01 else Byte.x00
                             | VStr s => byte_of (Z.of_nat (List.length s))
                             end) ps).

Definition picture : bytes :=
  [Byte.x02; Byte.x03; Byte.x20; Byte.x02; Byte.x58].

Definition get (timeout : float) (follow : bool) (url : str)
  : outcome httpx_response :=
  if str_eqb url (lit "https://example.org/picture")
  then Ret (mk_httpx_response 200 (Some (lit "text/plain; charset=utf-8")) picture)
  else if str_eqb url (lit "http://example.org/missing")
  then Ret (mk_httpx_response 404 (Some (lit "text/html")) [])
  else Raise (mk_exn ConnectError (lit "All connection attempts failed")).

Definition ascii_lower (s : str) : str :=
  List.map (fun c => if (65 <=? c) && (c <=? 90) then c + 32 else c)%N s.

#[export] Instance collab : Collab := {|
  image := img;
  Image_open := open;
  mode := i_mode;
  size := i_size;
  convert := fun i m => Ret (mk_img m (i_size i));
  resize := do_resize;
  save := do_save;
  client_get := get;
  status_error_message := fun r => lit "Client error '404 Not Found'";
  str_lower := ascii_lower
|}.

Definition twenty : float := S754_finite false 5629499534213120 (-48).

Definition upload (ct name : string) (data : bytes) : UploadFile :=
  mk_UploadFile (Some (lit ct)) (Some (lit name)) (Ret data).

(** A 1 x 1000 RGB image and a 49 x 49 one. *)
Definition sliver : bytes :=
  [Byte.x00; Byte.x00; Byte.x01; Byte.x03; Byte.xe8].
Definition square49 : bytes :=
  [Byte.x00; Byte.x00; Byte.x31; Byte.x00; Byte.x31].

End Sim.

(** The simulated collaborators with another network and another encoder. *)
Definition sim_env
    (get : float -> bool -> str -> outcome httpx_response)
    (sv : Sim.img -> list (str * pyval) -> outcome bytes) : Collab := {|
  image := Sim.img;
  Image_open := Sim.open;
  mode := Sim.i_mode;
  size := Sim.i_size;
  convert := fun i m => Ret (Sim.mk_img m (Sim.i_size i));
  resize := Sim.do_resize;
  save := sv;
  client_get := get;
  status_error_message := fun r => lit "Server error '503 Service Unavailable'";
  str_lower := Sim.ascii_lower
|}.

(** A network on which every fetch fails with [e]. *)
Definition failing_get (e : exn) (timeout : float) (follow : bool) (url : str)
  : outcome httpx_response := Raise e.

(** A five-byte file with an unknown mode tag, and an image of height 0. *)
Definition garbage : bytes :=
  [Byte.xff; Byte.x00; Byte.x01; Byte.x00; Byte.x01].
Definition flat : bytes :=
  [Byte.x00; Byte.x00; Byte.x05; Byte.x00; Byte.x00].

(** * Properties *)

(** ** Strings *)

Lemma str_eqb_eq (a b : str) : str_eqb a b = true <-> a = b.
Proof.
  revert b; induction a as [|x a IH]; intros [|y b]; simpl; split;
    try discriminate; try reflexivity.
  - intros E. apply andb_true_iff in E as [E1 E2].
    apply N.eqb_eq in E1. apply IH in E2. now subst.
  - intros E. injection E as -> ->.
    apply andb_true_iff. split; [apply N.eqb_refl | now apply IH].
Qed.

Lemma str_in_In (x : str) (xs : list str) : str_in x xs = true <-> In x xs.
Proof.
  unfold str_in. rewrite existsb_exists. split.
  - intros (y & Hy & E). apply str_eqb_eq in E. now subst.
  - intros Hx. exists x. split; [assumption | now apply str_eqb_eq].
Qed.

Lemma str_in_false (x : str) (xs : list str) :
  str_in x xs = false <-> ~ In x xs.
Proof.
  rewrite <- str_in_In. destruct (str_in x xs); split; intros; auto;
    try discriminate. now exfalso.
Qed.

(** A palette or grey-with-alpha image is not an RGB or RGBA one. *)
Lemma palette_not_rgb (m : str) :
  str_in m [lit "P"; lit "LA"] = true ->
  str_in m [lit "RGB"; lit "RGBA"] = false.
Proof.
  intros Hm. apply str_in_In in Hm. apply str_in_false. intros Hr.
  simpl in Hm, Hr.
  destruct Hm as [<-|[<-|[]]]; destruct Hr as [E|[E|[]]]; discriminate E.
Qed.

(** ** Floats *)

Lemma SFmul_inf_r (x : float) (s : bool) :
  trunc (SFmul prec emax x (S754_infinity s)) = None.
Proof. destruct x; reflexivity. Qed.

Lemma SFmul_nan_r (x : float) : trunc (SFmul prec emax x S754_nan) = None.
Proof. destruct x; reflexivity. Qed.

Lemma SFmul_inf_l (s : bool) (q : float) :
  trunc (SFmul prec emax (S754_infinity s) q) = None.
Proof. destruct q; reflexivity. Qed.

Lemma int_trunc (p : float) (t : Z) : int_ p = Ret t <-> trunc p = Some t.
Proof.
  destruct p; simpl; split; intros E; try discriminate;
    injection E as <-; reflexivity.
Qed.

(** Dividing by zero never gives a finite float. *)
Lemma SFdiv_by_zero (g : Z) :
  SFdiv prec emax (exact g) (exact 0) = S754_nan
  \/ exists s, SFdiv prec emax (exact g) (exact 0) = S754_infinity s.
Proof. destruct g; simpl; [now left | right; eauto | right; eauto]. Qed.

Section Scaling.

Context `{Collab}.

Lemma scaled_trace (a : Z) (x : option Z) (b : Z) : fst (scaled a x b) = [].
Proof.
  unfold scaled, bind, pure_.
  destruct (truediv x b); [|reflexivity].
  destruct (int_mul_float a a0); [|reflexivity].
  destruct (int_ a1); reflexivity.
Qed.

(** The Python evaluation of [int(a * (g / b))] succeeds exactly when the
    binary64 value is finite, and then yields its truncation. *)
Lemma scaled_proportional (a g b t : Z) :
  scaled a (Some g) b = ([], Ret t) <-> proportional a g b = Some t.
Proof.
  unfold scaled, proportional, bind, pure_, truediv, int_truediv,
    int_mul_float, float_of_int.
  destruct (Z.eqb_spec b 0) as [->|Hb].
  - split; [discriminate|].
    destruct (SFdiv_by_zero g) as [->|[s ->]].
    + now rewrite SFmul_nan_r.
    + now rewrite SFmul_inf_r.
  - generalize (SFdiv prec emax (exact g) (exact b)) as q.
    generalize (binary_normalize prec emax a 0 false) as x.
    intros x q.
    destruct q as [sq|sq| |sq mq eq];
      try (simpl is_inf; cbv iota).
    + destruct x as [sx|sx| |sx mx ex]; simpl is_inf; cbv iota;
        try (split; discriminate).
      * simpl. split; intros E; [injection E as <-|injection E as <-]; reflexivity.
      * simpl. split; intros E; [injection E as <-|injection E as <-]; reflexivity.
    + rewrite SFmul_inf_r. split; discriminate.
    + rewrite SFmul_nan_r. destruct x; simpl; split; discriminate.
    + destruct x as [sx|sx| |sx mx ex]; simpl is_inf; cbv iota.
      * simpl. split; intros E; [injection E as <-|injection E as <-]; reflexivity.
      * rewrite SFmul_inf_l. split; discriminate.
      * simpl. split; discriminate.
      * generalize (SFmul prec emax (S754_finite sx mx ex) (S754_finite sq mq eq)) as p.
        intros p. rewrite <- int_trunc.
        destruct (int_ p); split; intros E; try discriminate;
          [injection E as <-|injection E as <-]; reflexivity.
Qed.

End Scaling.

(** ** The conversion routine, stage by stage *)

Section Routine.

Context `{Collab}.

Lemma to_avif_stages data quality lossless width height :
  _to_avif_bytes data quality lossless width height =
  (img <- call (EvOpen data) (Image_open data) ;;
   img <- normalize_mode img ;;
   img <- optional_resize width height img ;;
   encode quality lossless img).
Proof. unfold _to_avif_bytes, encode, save_params. now destruct lossless. Qed.

(** The routine after a successful decode, by the outcome of each stage. *)
Lemma routine_run data quality lossless width height img :
  Image_open data = Ret img ->
  _to_avif_bytes data quality lossless width height =
  match normalize_mode img with
  | (t1, Raise e) => (EvOpen data :: t1, Raise e)
  | (t1, Ret i1) => finish data quality lossless width height t1 i1
  end.
Proof.
  intros Hopen. rewrite to_avif_stages. unfold bind at 1, call at 1.
  rewrite Hopen. unfold bind at 1.
  destruct (normalize_mode img) as [t1 [i1|e]]; [|reflexivity].
  unfold finish, bind, encode, call.
  destruct (optional_resize width height i1) as [t2 [i2|e]]; reflexivity.
Qed.

Lemma routine_undecodable data quality lossless width height e :
  Image_open data = Raise e ->
  _to_avif_bytes data quality lossless width height = ([EvOpen data], Raise e).
Proof.
  intros Hopen. rewrite to_avif_stages. unfold bind at 1, call at 1.
  now rewrite Hopen.
Qed.

Lemma normalize_mode_cases img :
  (str_in (mode img) [lit "RGB"; lit "RGBA"] = true
   /\ normalize_mode img = ([], Ret img))
  \/ (str_in (mode img) [lit "RGB"; lit "RGBA"] = false
      /\ normalize_mode img
         = ([EvConvert img (lit "RGBA")], convert img (lit "RGBA"))).
Proof.
  unfold normalize_mode, call, ret.
  destruct (str_in (mode img) [lit "P"; lit "LA"]) eqn:Hp.
  - right. split; [now apply palette_not_rgb | reflexivity].
  - destruct (str_in (mode img) [lit "RGB"; lit "RGBA"]); simpl; auto.
Qed.

Lemma scaled_cases a g b :
  (exists t, proportional a g b = Some t /\ scaled a (Some g) b = ([], Ret t))
  \/ (proportional a g b = None /\ exists e, scaled a (Some g) b = ([], Raise e)).
Proof.
  pose proof (scaled_trace a (Some g) b) as Ht.
  destruct (scaled a (Some g) b) as [t [n|e]] eqn:E; simpl in Ht; subst t.
  - left. exists n. split; [now apply scaled_proportional | reflexivity].
  - right. split; [|eauto].
    destruct (proportional a g b) as [n|] eqn:P; [|reflexivity].
    apply scaled_proportional in P. congruence.
Qed.

Lemma or_scaled_given n a y b : n <> 0 -> or_scaled (Some n) a y b = ret n.
Proof.
  intros Hn. unfold or_scaled. now destruct (Z.eqb_spec n 0).
Qed.

Lemma truthy_given n y : n <> 0 -> truthy (or_ (Some n) y) = true.
Proof.
  intros Hn. unfold or_, truthy. destruct (Z.eqb_spec n 0); [contradiction|].
  simpl. now destruct (Z.eqb_spec n 0).
Qed.

Lemma truthy_height n : n <> 0 -> truthy (or_ None (Some n)) = true.
Proof.
  intros Hn. unfold or_, truthy. now destruct (Z.eqb_spec n 0).
Qed.

Lemma optional_resize_none img : optional_resize None None img = ([], Ret img).
Proof. reflexivity. Qed.

Lemma optional_resize_both gw gh img :
  1 <= gw -> 1 <= gh ->
  optional_resize (Some gw) (Some gh) img
  = ([EvResize img (gw, gh) LANCZOS], resize img (gw, gh) LANCZOS).
Proof.
  intros Hw Hh. unfold optional_resize.
  rewrite (truthy_given gw (Some gh)) by lia.
  destruct (size img) as [w h].
  rewrite !or_scaled_given by lia. reflexivity.
Qed.

Lemma optional_resize_width g img w h :
  1 <= g -> size img = (w, h) ->
  (exists th, proportional h g w = Some th
     /\ optional_resize (Some g) None img
        = ([EvResize img (g, th) LANCZOS], resize img (g, th) LANCZOS))
  \/ (proportional h g w = None
      /\ exists e, optional_resize (Some g) None img = ([], Raise e)).
Proof.
  intros Hg Hsz. unfold optional_resize.
  rewrite (truthy_given g None) by lia.
  rewrite Hsz, or_scaled_given by lia. unfold or_scaled.
  destruct (scaled_cases h g w) as [(th & P & E)|(P & e & E)]; rewrite E.
  - left. exists th. split; [assumption | reflexivity].
  - right. split; [assumption | exists e; reflexivity].
Qed.

Lemma optional_resize_height g img w h :
  1 <= g -> size img = (w, h) ->
  (exists tw, proportional w g h = Some tw
     /\ optional_resize None (Some g) img
        = ([EvResize img (tw, g) LANCZOS], resize img (tw, g) LANCZOS))
  \/ (proportional w g h = None
      /\ exists e, optional_resize None (Some g) img = ([], Raise e)).
Proof.
  intros Hg Hsz. unfold optional_resize.
  rewrite (truthy_height g) by lia.
  rewrite Hsz. rewrite (or_scaled_given g h None w) by lia. unfold or_scaled.
  destruct (scaled_cases w g h) as [(tw & P & E)|(P & e & E)]; rewrite E.
  - left. exists tw. split; [assumption | reflexivity].
  - right. split; [assumption | exists e; reflexivity].
Qed.

(** Whatever the request, the resize stage does nothing, raises before
    calling Pillow, or makes one Lanczos resize call. *)
Lemma optional_resize_shape width height img :
  optional_resize width height img = ([], Ret img)
  \/ (exists e, optional_resize width height img = ([], Raise e))
  \/ (exists sz, optional_resize width height img
                 = ([EvResize img sz LANCZOS], resize img sz LANCZOS)).
Proof.
  unfold optional_resize.
  destruct (truthy (or_ width height)); [|now left].
  destruct (size img) as [w h].
  assert (Hs : forall x a y b,
             (exists n, or_scaled x a y b = ([], Ret n))
             \/ (exists e, or_scaled x a y b = ([], Raise e))).
  { intros x a y b.
    assert (Hsc : (exists n, scaled a y b = ([], Ret n))
                  \/ (exists e, scaled a y b = ([], Raise e))).
    { pose proof (scaled_trace a y b) as Ht.
      destruct (scaled a y b) as [t [n|e]]; simpl in Ht; subst t; eauto. }
    unfold or_scaled. destruct x as [n|]; [|exact Hsc].
    destruct (n =? 0); [exact Hsc | left; exists n; reflexivity]. }
  destruct (Hs width w height h) as [[tw Ew]|[e Ew]]; rewrite Ew.
  - destruct (Hs height h width w) as [[th Eh]|[e Eh]].
    + right; right. exists (tw, th). unfold bind at 1. cbv beta iota.
      rewrite Eh. reflexivity.
    + right; left. exists e. unfold bind at 1. cbv beta iota.
      rewrite Eh. reflexivity.
  - right; left. exists e. reflexivity.
Qed.

End Routine.

(** ** Traces of the routine *)

Section RoutineTraces.

Context `{Collab}.

Lemma convert_calls_app t u :
  convert_calls (t ++ u) = convert_calls t ++ convert_calls u.
Proof.
  induction t as [|[] t IH]; simpl; try assumption; try reflexivity.
  now rewrite IH.
Qed.

Lemma resize_calls_app t u :
  resize_calls (t ++ u) = resize_calls t ++ resize_calls u.
Proof.
  induction t as [|[] t IH]; simpl; try assumption; try reflexivity.
  now rewrite IH.
Qed.

Lemma encoder_calls_app t u :
  encoder_calls (t ++ u) = encoder_calls t ++ encoder_calls u.
Proof.
  induction t as [|[] t IH]; simpl; try assumption; try reflexivity.
  now rewrite IH.
Qed.

(** A successful run went through every stage. *)
Lemma routine_success data quality lossless width height img t out :
  Image_open data = Ret img ->
  _to_avif_bytes data quality lossless width height = (t, Ret out) ->
  exists t1 i1 t2 i2,
    normalize_mode img = (t1, Ret i1)
    /\ optional_resize width height i1 = (t2, Ret i2)
    /\ save i2 (save_params quality lossless) = Ret out
    /\ t = EvOpen data :: t1 ++ t2 ++ [EvSave i2 (save_params quality lossless)].
Proof.
  intros Hopen Hrun. rewrite (routine_run _ _ _ _ _ _ Hopen) in Hrun.
  destruct (normalize_mode img) as [t1 [i1|e]]; [|discriminate].
  unfold finish in Hrun.
  destruct (optional_resize width height i1) as [t2 [i2|e]] eqn:E2;
    [|discriminate].
  injection Hrun as <- Hs. exists t1, i1, t2, i2. auto.
Qed.

Context `{!PillowLaws}.

Lemma normalize_ok img t1 i1 :
  normalize_mode img = (t1, Ret i1) ->
  size i1 = size img
  /\ str_in (mode i1) [lit "RGB"; lit "RGBA"] = true
  /\ resize_calls t1 = [] /\ encoder_calls t1 = [].
Proof.
  intros E. destruct (normalize_mode_cases img) as [[Hm E']|[Hm E']];
    rewrite E' in E.
  - injection E as <- <-. auto.
  - injection E as <- E. repeat split; try reflexivity.
    + eapply convert_size; eassumption.
    + apply convert_mode in E. rewrite E. reflexivity.
Qed.

Lemma resize_ok width height i1 t2 i2 :
  optional_resize width height i1 = (t2, Ret i2) ->
  mode i2 = mode i1 /\ convert_calls t2 = [] /\ encoder_calls t2 = [].
Proof.
  intros E.
  destruct (optional_resize_shape width height i1) as [E'|[[e E']|[sz E']]];
    rewrite E' in E.
  - injection E as <- <-. auto.
  - discriminate.
  - injection E as <- E. apply resize_mode in E. auto.
Qed.

End RoutineTraces.

Lemma sim_laws : @PillowLaws Sim.collab.
Proof.
  constructor; simpl.
  - intros i m i' E. injection E as <-. reflexivity.
  - intros i m i' E. injection E as <-. reflexivity.
  - intros i [tw th] f i'. unfold Sim.do_resize, Sim.pair_eqb. simpl.
    destruct (Z.eqb_spec (fst (Sim.i_size i)) tw);
      destruct (Z.eqb_spec (snd (Sim.i_size i)) th); simpl;
      try (destruct ((1 <=? tw) && (1 <=? th)); [|discriminate]);
      intros E; injection E as <-; try reflexivity.
    destruct (Sim.i_size i); simpl in *; congruence.
  - intros i sz f i'. unfold Sim.do_resize.
    destruct (Sim.pair_eqb (Sim.i_size i) sz).
    + intros E. injection E as <-. reflexivity.
    + destruct ((1 <=? fst sz) && (1 <=? snd sz)); [|discriminate].
      intros E. injection E as <-. reflexivity.
  - intros i tw th f i'. unfold Sim.do_resize, Sim.pair_eqb. simpl.
    destruct (Z.eqb_spec (fst (Sim.i_size i)) tw);
      destruct (Z.eqb_spec (snd (Sim.i_size i)) th); simpl;
      try (destruct (Z.leb_spec 1 tw); destruct (Z.leb_spec 1 th); simpl;
           try discriminate; intros _ _; lia).
    intros _ Hne. exfalso. apply Hne.
    destruct (Sim.i_size i); simpl in *; congruence.
Qed.

Lemma rgb_mode_iff (m : str) :
  str_in m [lit "RGB"; lit "RGBA"] = true <-> m = lit "RGB" \/ m = lit "RGBA".
Proof.
  rewrite str_in_In. simpl. split.
  - intros [E|[E|[]]]; auto.
  - intros [E|E]; auto.
Qed.

Lemma resize_stage_trace `{Collab} width height i1 :
  convert_calls (fst (optional_resize width height i1)) = []
  /\ encoder_calls (fst (optional_resize width height i1)) = [].
Proof.
  destruct (optional_resize_shape width height i1) as [E|[[e E]|[sz E]]];
    rewrite E; auto.
Qed.

(** ** C1: mode normalization *)

(** C1.  After a successful decode, an image whose mode is RGB or RGBA is
    not converted, an image of any other mode is converted once, to RGBA;
    every call of the encoder is on an image whose mode is RGB or RGBA, and
    a run that returns bytes has called the encoder exactly once. *)
Theorem C1_encoder_receives_rgb_or_rgba
    {C : Collab} {L : PillowLaws}
    (data : bytes) (quality : Z) (lossless : bool) (width height : option Z)
    (img : image) :
  Image_open data = Ret img ->
  let run := _to_avif_bytes data quality lossless width height in
  (mode img = lit "RGB" \/ mode img = lit "RGBA" ->
   convert_calls (fst run) = [])
  /\ (~ (mode img = lit "RGB" \/ mode img = lit "RGBA") ->
      convert_calls (fst run) = [(img, lit "RGBA")])
  /\ (forall i ps, In (i, ps) (encoder_calls (fst run)) ->
      mode i = lit "RGB" \/ mode i = lit "RGBA")
  /\ (forall out, snd run = Ret out ->
      exists i ps, encoder_calls (fst run) = [(i, ps)]).
Proof.
  intros Hopen run. subst run. rewrite (routine_run _ _ _ _ _ _ Hopen).
  assert (Hnorm : forall t1 i1, normalize_mode img = (t1, Ret i1) ->
                  mode i1 = lit "RGB" \/ mode i1 = lit "RGBA").
  { intros t1 i1 E. apply rgb_mode_iff. eapply normalize_ok. eassumption. }
  assert (Htail : forall t1 i1,
            normalize_mode img = (t1, Ret i1) ->
            convert_calls (fst (finish data quality lossless width height t1 i1))
            = convert_calls t1
            /\ (forall i ps,
                In (i, ps)
                  (encoder_calls
                     (fst (finish data quality lossless width height t1 i1))) ->
                mode i = lit "RGB" \/ mode i = lit "RGBA")
            /\ (forall out,
                snd (finish data quality lossless width height t1 i1) = Ret out ->
                exists i ps,
                  encoder_calls
                    (fst (finish data quality lossless width height t1 i1))
                  = [(i, ps)])).
  { intros t1 i1 E. unfold finish.
    destruct (normalize_ok _ _ _ E) as (_ & _ & _ & Henc1).
    pose proof (Hnorm _ _ E) as Hm1.
    pose proof (resize_stage_trace width height i1) as [Hc He].
    destruct (optional_resize width height i1) as [t2 [i2|e]] eqn:E2;
      simpl in Hc, He; simpl.
    - rewrite !convert_calls_app, !encoder_calls_app, Hc, He, Henc1. simpl.
      rewrite app_nil_r. repeat split.
      + intros i ps [E'|[]]. injection E' as <- _.
        destruct (resize_ok _ _ _ _ _ E2) as (-> & _). assumption.
      + intros out _. eauto.
    - rewrite !convert_calls_app, !encoder_calls_app, Hc, He, Henc1. simpl.
      rewrite app_nil_r. repeat split.
      + intros i ps [].
      + intros out E'. discriminate. }
  destruct (normalize_mode_cases img) as [[Hm E]|[Hm E]]; rewrite E.
  - destruct (Htail _ _ E) as (Hc & He & Hs). rewrite Hc.
    repeat split; auto.
    intros Hn. exfalso. apply Hn. now apply rgb_mode_iff.
  - assert (Hnot : ~ (mode img = lit "RGB" \/ mode img = lit "RGBA")).
    { rewrite <- rgb_mode_iff. rewrite Hm. discriminate. }
    destruct (convert img (lit "RGBA")) as [i1|e] eqn:Ec.
    + destruct (Htail _ _ E) as (Hc & He & Hs). rewrite Hc.
      repeat split; auto. intros Hy. contradiction.
    + simpl. repeat split; auto.
      * intros Hy. contradiction.
      * intros i ps [].
      * intros out E'. discriminate.
Qed.

(** C1 on the simulated collaborators: a palette image is converted to RGBA
    before it is encoded. *)
Lemma C1_witness :
  let run := @_to_avif_bytes Sim.collab Sim.picture 60 false None None in
  (@mode Sim.collab (Sim.mk_img (lit "P") (800, 600)) = lit "RGB"
   \/ @mode Sim.collab (Sim.mk_img (lit "P") (800, 600)) = lit "RGBA" ->
   convert_calls (fst run) = [])
  /\ (~ (@mode Sim.collab (Sim.mk_img (lit "P") (800, 600)) = lit "RGB"
         \/ @mode Sim.collab (Sim.mk_img (lit "P") (800, 600)) = lit "RGBA") ->
      convert_calls (fst run) = [(Sim.mk_img (lit "P") (800, 600), lit "RGBA")])
  /\ (forall i ps, In (i, ps) (encoder_calls (fst run)) ->
      mode i = lit "RGB" \/ mode i = lit "RGBA")
  /\ (forall out, snd run = Ret out ->
      exists i ps, encoder_calls (fst run) = [(i, ps)]).
Proof.
  apply (@C1_encoder_receives_rgb_or_rgba Sim.collab sim_laws
           Sim.picture 60 false None None (Sim.mk_img (lit "P") (800, 600))).
  reflexivity.
Defined.

(** ** Calls made by a run *)

Section Calls.

Context `{Collab}.

Lemma normalize_trace img :
  resize_calls (fst (normalize_mode img)) = []
  /\ encoder_calls (fst (normalize_mode img)) = [].
Proof.
  destruct (normalize_mode_cases img) as [[_ E]|[_ E]]; rewrite E; auto.
Qed.

(** The resize and encoder calls of a run that returned bytes. *)
Lemma success_calls data quality lossless width height img t out :
  Image_open data = Ret img ->
  _to_avif_bytes data quality lossless width height = (t, Ret out) ->
  exists t1 i1 t2 i2,
    normalize_mode img = (t1, Ret i1)
    /\ optional_resize width height i1 = (t2, Ret i2)
    /\ resize_calls t = resize_calls t2
    /\ encoder_calls t = [(i2, save_params quality lossless)].
Proof.
  intros Hopen Hrun.
  destruct (routine_success _ _ _ _ _ _ _ _ Hopen Hrun)
    as (t1 & i1 & t2 & i2 & E1 & E2 & _ & ->).
  exists t1, i1, t2, i2. repeat split; try assumption.
  - pose proof (normalize_trace img) as [Hr _]. rewrite E1 in Hr.
    simpl in Hr. simpl. rewrite !resize_calls_app, Hr. simpl.
    now rewrite app_nil_r.
  - pose proof (normalize_trace img) as [_ He]. rewrite E1 in He.
    pose proof (resize_stage_trace width height i1) as [_ He2].
    rewrite E2 in He2. simpl in He, He2. simpl.
    now rewrite !encoder_calls_app, He, He2.
Qed.

(** Every encoder call of a run carries the run's save parameters. *)
Lemma encoder_params data quality lossless width height i ps :
  In (i, ps)
    (encoder_calls (fst (_to_avif_bytes data quality lossless width height))) ->
  ps = save_params quality lossless.
Proof.
  destruct (Image_open data) as [img|e] eqn:Hopen.
  - rewrite (routine_run _ _ _ _ _ _ Hopen).
    pose proof (normalize_trace img) as [_ He].
    destruct (normalize_mode img) as [t1 [i1|e]]; simpl in He.
    + unfold finish.
      pose proof (resize_stage_trace width height i1) as [_ He2].
      destruct (optional_resize width height i1) as [t2 [i2|e]];
        simpl in He2; simpl;
        rewrite !encoder_calls_app, He, He2; simpl.
      * intros [E|[]]. now injection E.
      * intros [].
    + simpl. rewrite He. intros [].
  - rewrite (routine_undecodable _ _ _ _ _ _ Hopen). intros [].
Qed.

(** Once the image is normalized, a resize stage that calls Pillow leaves
    exactly that call in the trace, whatever its outcome. *)
Lemma resize_request data quality lossless width height img i1 sz :
  Image_open data = Ret img ->
  normalizes_to img i1 ->
  optional_resize width height i1
  = ([EvResize i1 sz LANCZOS], resize i1 sz LANCZOS) ->
  resize_calls (fst (_to_avif_bytes data quality lossless width height))
  = [(i1, sz, LANCZOS)].
Proof.
  intros Hopen Hn E. rewrite (routine_run _ _ _ _ _ _ Hopen).
  assert (E1 : exists t1, normalize_mode img = (t1, Ret i1)
                          /\ resize_calls t1 = []).
  { destruct (normalize_mode_cases img) as [[Hm E']|[Hm E']];
      destruct Hn as [[Hy ->]|[Hnot Ec]].
    - eauto.
    - exfalso. apply Hnot. now apply rgb_mode_iff.
    - apply rgb_mode_iff in Hy. congruence.
    - rewrite Ec in E'. eauto. }
  destruct E1 as (t1 & -> & Hr). unfold finish. rewrite E.
  destruct (resize i1 sz LANCZOS) as [i2|e]; simpl;
    rewrite !resize_calls_app, Hr; reflexivity.
Qed.

End Calls.

(** ** C2: one target dimension *)

(** C2.  For a decoded image of size [(w, h)] and a request giving only a
    width [g >= 1], a run that returns bytes has resized the image once, to
    [(g, th)] where [th] is the truncated binary64 value of [h * (g / w)],
    and has encoded an image of that size; symmetrically, a request giving
    only a height [g] resizes to [(tw, g)] with [tw] the truncated value
    of [w * (g / h)]. *)
Theorem C2_single_dimension_scales
    {C : Collab} {L : PillowLaws}
    (data : bytes) (quality : Z) (lossless : bool) (g : Z)
    (img : image) (w h : Z) :
  1 <= g -> Image_open data = Ret img -> size img = (w, h) ->
  (forall t out,
      _to_avif_bytes data quality lossless (Some g) None = (t, Ret out) ->
      exists th, proportional h g w = Some th
                 /\ resized_to t (g, th) /\ encoded_size t (g, th))
  /\ (forall t out,
      _to_avif_bytes data quality lossless None (Some g) = (t, Ret out) ->
      exists tw, proportional w g h = Some tw
                 /\ resized_to t (tw, g) /\ encoded_size t (tw, g))
  /\ (forall i1 th,
      normalizes_to img i1 -> proportional h g w = Some th ->
      resize_calls (fst (_to_avif_bytes data quality lossless (Some g) None))
      = [(i1, (g, th), LANCZOS)])
  /\ (forall i1 tw,
      normalizes_to img i1 -> proportional w g h = Some tw ->
      resize_calls (fst (_to_avif_bytes data quality lossless None (Some g)))
      = [(i1, (tw, g), LANCZOS)]).
Proof.
  intros Hg Hopen Hsz.
  assert (Hsize : forall i1, normalizes_to img i1 -> size i1 = (w, h)).
  { intros i1 [[_ ->]|[_ Ec]]; [assumption|].
    now rewrite (convert_size _ _ _ Ec). }
  split; [|split; [|split]]; [| |intros i1 th Hn P|intros i1 tw Hn P].
  3:{ apply (resize_request _ _ _ _ _ _ _ _ Hopen Hn).
      destruct (optional_resize_width g i1 w h Hg (Hsize i1 Hn))
        as [(th' & P' & E)|(P' & _)]; congruence. }
  3:{ apply (resize_request _ _ _ _ _ _ _ _ Hopen Hn).
      destruct (optional_resize_height g i1 w h Hg (Hsize i1 Hn))
        as [(tw' & P' & E)|(P' & _)]; congruence. }
  all: intros t out Hrun;
    destruct (success_calls _ _ _ _ _ _ _ _ Hopen Hrun)
      as (t1 & i1 & t2 & i2 & E1 & E2 & Hr & He);
    destruct (normalize_ok _ _ _ E1) as (Hs1 & _); rewrite Hsz in Hs1.
  - destruct (optional_resize_width g i1 w h Hg Hs1)
      as [(th & P & E)|(_ & e & E)]; rewrite E in E2; [|discriminate].
    injection E2 as <- E2. exists th. split; [assumption|]. split.
    + exists i1. rewrite Hr. reflexivity.
    + exists i2, (save_params quality lossless). split; [assumption|].
      eapply resize_size; eassumption.
  - destruct (optional_resize_height g i1 w h Hg Hs1)
      as [(tw & P & E)|(_ & e & E)]; rewrite E in E2; [|discriminate].
    injection E2 as <- E2. exists tw. split; [assumption|]. split.
    + exists i1. rewrite Hr. reflexivity.
    + exists i2, (save_params quality lossless). split; [assumption|].
      eapply resize_size; eassumption.
Qed.

(** C2 on the simulated collaborators, for the 800 x 600 picture. *)
Lemma C2_witness :
  (forall t out,
      @_to_avif_bytes Sim.collab Sim.picture 60 false (Some 400) None
      = (t, Ret out) ->
      exists th, proportional 600 400 800 = Some th
                 /\ resized_to t (400, th) /\ encoded_size t (400, th))
  /\ (forall t out,
      @_to_avif_bytes Sim.collab Sim.picture 60 false None (Some 400)
      = (t, Ret out) ->
      exists tw, proportional 800 400 600 = Some tw
                 /\ resized_to t (tw, 400) /\ encoded_size t (tw, 400))
  /\ (forall i1 th,
      @normalizes_to Sim.collab (Sim.mk_img (lit "P") (800, 600)) i1 ->
      proportional 600 400 800 = Some th ->
      resize_calls
        (fst (@_to_avif_bytes Sim.collab Sim.picture 60 false (Some 400) None))
      = [(i1, (400, th), LANCZOS)])
  /\ (forall i1 tw,
      @normalizes_to Sim.collab (Sim.mk_img (lit "P") (800, 600)) i1 ->
      proportional 800 400 600 = Some tw ->
      resize_calls
        (fst (@_to_avif_bytes Sim.collab Sim.picture 60 false None (Some 400)))
      = [(i1, (tw, 400), LANCZOS)]).
Proof.
  apply (@C2_single_dimension_scales Sim.collab sim_laws Sim.picture 60 false
           400 (Sim.mk_img (lit "P") (800, 600)) 800 600).
  - lia.
  - reflexivity.
  - reflexivity.
Defined.

(** The examples of the specification, run through the whole routine. *)
Lemma spec_example_width :
  proportional 600 400 800 = Some 300
  /\ resize_calls
       (fst (@_to_avif_bytes Sim.collab Sim.picture 60 false (Some 400) None))
     = [(Sim.mk_img (lit "RGBA") (800, 600), (400, 300), LANCZOS)].
Proof. split; reflexivity. Qed.

Lemma spec_example_height :
  proportional 800 300 600 = Some 400
  /\ resize_calls
       (fst (@_to_avif_bytes Sim.collab Sim.picture 60 false None (Some 300)))
     = [(Sim.mk_img (lit "RGBA") (800, 600), (400, 300), LANCZOS)].
Proof. split; reflexivity. Qed.

(** The binary64 product can fall below the exact quotient: 49 * (1 / 49)
    truncates to 0. *)
Lemma proportional_below_exact :
  proportional 49 1 49 = Some 0 /\ (49 * 1) / 49 = 1.
Proof. split; reflexivity. Qed.

(** ** C3: both target dimensions, or none *)

(** C3.  With both a width and a height (each at least 1) a run that
    returns bytes has resized the image once, to exactly that size, and has
    encoded an image of that size.  With neither, no run calls [resize],
    and a run that returns bytes has encoded an image of the decoded
    size. *)
Theorem C3_both_or_neither
    {C : Collab} {L : PillowLaws}
    (data : bytes) (quality : Z) (lossless : bool) (gw gh : Z) (img : image) :
  1 <= gw -> 1 <= gh -> Image_open data = Ret img ->
  (forall t out,
      _to_avif_bytes data quality lossless (Some gw) (Some gh) = (t, Ret out) ->
      resized_to t (gw, gh) /\ encoded_size t (gw, gh))
  /\ resize_calls (fst (_to_avif_bytes data quality lossless None None)) = []
  /\ (forall t out,
      _to_avif_bytes data quality lossless None None = (t, Ret out) ->
      encoded_size t (size img))
  /\ (forall i1,
      normalizes_to img i1 ->
      resize_calls
        (fst (_to_avif_bytes data quality lossless (Some gw) (Some gh)))
      = [(i1, (gw, gh), LANCZOS)]).
Proof.
  intros Hw Hh Hopen. split; [|split; [|split]].
  4:{ intros i1 Hn. apply (resize_request _ _ _ _ _ _ _ _ Hopen Hn).
      now apply optional_resize_both. }
  - intros t out Hrun.
    destruct (success_calls _ _ _ _ _ _ _ _ Hopen Hrun)
      as (t1 & i1 & t2 & i2 & E1 & E2 & Hr & He).
    rewrite (optional_resize_both gw gh i1 Hw Hh) in E2.
    injection E2 as <- E2. split.
    + exists i1. rewrite Hr. reflexivity.
    + exists i2, (save_params quality lossless). split; [assumption|].
      eapply resize_size; eassumption.
  - rewrite (routine_run _ _ _ _ _ _ Hopen).
    pose proof (normalize_trace img) as [Hr _].
    destruct (normalize_mode img) as [t1 [i1|e]]; simpl in Hr.
    + unfold finish. rewrite optional_resize_none. simpl.
      now rewrite resize_calls_app, Hr.
    + simpl. assumption.
  - intros t out Hrun.
    destruct (success_calls _ _ _ _ _ _ _ _ Hopen Hrun)
      as (t1 & i1 & t2 & i2 & E1 & E2 & Hr & He).
    rewrite optional_resize_none in E2. injection E2 as <- <-.
    exists i1, (save_params quality lossless). split; [assumption|].
    eapply normalize_ok; eassumption.
Qed.

(** C3 on the simulated collaborators: 800 x 600 to 123 x 457. *)
Lemma C3_witness :
  (forall t out,
      @_to_avif_bytes Sim.collab Sim.picture 60 false (Some 123) (Some 457)
      = (t, Ret out) ->
      resized_to t (123, 457) /\ encoded_size t (123, 457))
  /\ resize_calls
       (fst (@_to_avif_bytes Sim.collab Sim.picture 60 false None None)) = []
  /\ (forall t out,
      @_to_avif_bytes Sim.collab Sim.picture 60 false None None = (t, Ret out) ->
      encoded_size t (800, 600))
  /\ (forall i1,
      @normalizes_to Sim.collab (Sim.mk_img (lit "P") (800, 600)) i1 ->
      resize_calls
        (fst (@_to_avif_bytes Sim.collab Sim.picture 60 false
                (Some 123) (Some 457)))
      = [(i1, (123, 457), LANCZOS)]).
Proof.
  apply (@C3_both_or_neither Sim.collab sim_laws Sim.picture 60 false 123 457
           (Sim.mk_img (lit "P") (800, 600))).
  - lia.
  - lia.
  - reflexivity.
Defined.

(** ** C4: lossless encoding *)

(** C4.  With [lossless] set, the routine and both handlers give the same
    result whatever the quality; every encoder call of such a run carries
    exactly the parameters format AVIF and lossless True, and a run that
    returns bytes has made exactly one such call. *)
Theorem C4_lossless_ignores_quality
    {C : Collab}
    (data : bytes) (q1 q2 : Z) (width height : option Z)
    (file : UploadFile) (url : str) (timeout : float) :
  _to_avif_bytes data q1 true width height
  = _to_avif_bytes data q2 true width height
  /\ convert_file_to_avif file q1 true width height
     = convert_file_to_avif file q2 true width height
  /\ convert_url_to_avif url q1 true width height timeout
     = convert_url_to_avif url q2 true width height timeout
  /\ (forall i ps,
      In (i, ps) (encoder_calls (fst (_to_avif_bytes data q1 true width height))) ->
      ps = lossless_params)
  /\ (forall t out,
      _to_avif_bytes data q1 true width height = (t, Ret out) ->
      exists i, encoder_calls t = [(i, lossless_params)]).
Proof.
  assert (Hsame : forall d, _to_avif_bytes d q1 true width height
                            = _to_avif_bytes d q2 true width height).
  { intros d. rewrite !to_avif_stages. reflexivity. }
  split; [apply Hsame|]. split; [|split; [|split]].
  - unfold convert_file_to_avif.
    destruct (negb (is_image_type (content_type file))); [reflexivity|].
    unfold bind, call.
    destruct (read file) as [d|e]; [|reflexivity].
    cbv beta iota. now rewrite Hsame.
  - unfold convert_url_to_avif.
    destruct (negb (Sre.match_I (lit "^https?://") url)); [reflexivity|].
    unfold bind, call, pure_.
    destruct (client_get timeout true url) as [resp|e]; [|reflexivity].
    cbv beta iota.
    destruct (raise_for_status resp) as [[]|e]; [|reflexivity].
    cbv beta iota. now rewrite Hsame.
  - intros i ps Hin. now apply encoder_params in Hin.
  - intros t out Hrun.
    destruct (Image_open data) as [img|e] eqn:Hopen.
    + destruct (success_calls _ _ _ _ _ _ _ _ Hopen Hrun)
        as (t1 & i1 & t2 & i2 & _ & _ & _ & He).
      exists i2. exact He.
    + rewrite (routine_undecodable _ _ _ _ _ _ Hopen) in Hrun. discriminate.
Qed.

(** ** C5: the upload handler's content-type check *)

(** C5.  When the declared content type is absent or is not one of the
    four image types, the upload handler raises the 415 exception with its
    fixed message and makes no call at all: the file is not read and
    nothing is converted. *)
Theorem C5_unsupported_type_rejected_first
    {C : Collab}
    (file : UploadFile) (quality : Z) (lossless : bool)
    (width height : option Z) :
  (forall s, content_type file = Some s -> ~ In s image_types) ->
  convert_file_to_avif file quality lossless width height
  = ([], HTTPException 415 (lit "Only JPEG/JPG/PNG/WEBP are accepted.")).
Proof.
  intros Hct. unfold convert_file_to_avif, is_image_type.
  destruct (content_type file) as [s|]; [|reflexivity].
  specialize (Hct s eq_refl). apply str_in_false in Hct. now rewrite Hct.
Qed.

(** C5 on a [text/plain] upload. *)
Lemma C5_witness :
  @convert_file_to_avif Sim.collab
    (Sim.upload "text/plain" "notes.txt" Sim.picture) 60 false None None
  = ([], HTTPException 415 (lit "Only JPEG/JPG/PNG/WEBP are accepted.")).
Proof.
  apply (@C5_unsupported_type_rejected_first Sim.collab).
  intros s E. injection E as <-. simpl.
  intros [E|[E|[E|[E|[]]]]]; discriminate E.
Defined.

(** ** C6: the URL scheme check *)

Lemma prefix_I_begins (p s : str) :
  prefix_I p s = true <-> begins_with_I p s.
Proof.
  revert s. induction p as [|c p IH]; intros s.
  - split; [|reflexivity]. intros _. exists [], s. split; [reflexivity|constructor].
  - destruct s as [|ch s]; simpl.
    + split; [discriminate|]. intros (pre & rest & E & F).
      inversion F; subst. discriminate E.
    + rewrite andb_true_iff, IH. split.
      * intros (Hc & pre & rest & -> & F). exists (ch :: pre), rest.
        split; [reflexivity|]. now constructor.
      * intros (pre & rest & E & F). inversion F as [|? y ? pre' Hc F']; subst.
        injection E as -> ->. split; [exact Hc|]. now exists pre', rest.
Qed.

(** The compiled pattern decides the two prefixes. *)
Lemma match_scheme (url : str) :
  Sre.match_I (lit "^https?://") url
  = prefix_I (lit "http://") url || prefix_I (lit "https://") url.
Proof.
  unfold Sre.match_I.
  change (Sre.compile true (lit "^https?://"))
    with [Sre.AT_BEGINNING;
          Sre.ATOM (Sre.LITERAL_UNI_IGNORE 104);
          Sre.ATOM (Sre.LITERAL_UNI_IGNORE 116);
          Sre.ATOM (Sre.LITERAL_UNI_IGNORE 116);
          Sre.ATOM (Sre.LITERAL_UNI_IGNORE 112);
          Sre.MAX_REPEAT_0_1 (Sre.IN_UNI_IGNORE [115%N; 383%N]);
          Sre.ATOM (Sre.LITERAL 58); Sre.ATOM (Sre.LITERAL 47);
          Sre.ATOM (Sre.LITERAL 47)].
  change (lit "http://") with [104; 116; 116; 112; 58; 47; 47]%N.
  change (lit "https://") with [104; 116; 116; 112; 115; 58; 47; 47]%N.
  assert (Hc : forall c,
             Sre.compile_char true c
             = if Sre.iscased c
               then match Sre.fixes (Sre.lower_unicode c) with
                    | [] => Sre.LITERAL_UNI_IGNORE (Sre.lower_unicode c)
                    | fx => Sre.IN_UNI_IGNORE (Sre.lower_unicode c :: fx)
                    end
               else Sre.LITERAL c) by reflexivity.
  destruct url as [|c1 [|c2 [|c3 [|c4 [|c5 [|c6 [|c7 [|c8 rest]]]]]]]];
    cbn [Sre.run prefix_I andb orb]; rewrite ?Hc; cbn -[Sre.accepts];
    repeat match goal with
      | |- context [Sre.accepts ?a ?c] => destruct (Sre.accepts a c)
      end; reflexivity.
Qed.

Lemma http_scheme_match (url : str) :
  Sre.match_I (lit "^https?://") url = true <-> http_scheme url.
Proof.
  rewrite match_scheme, orb_true_iff, !prefix_I_begins. reflexivity.
Qed.

Lemma lower_unicode_cases (ch : N) :
  ((65 <= ch <= 90 /\ Sre.lower_unicode ch = ch + 32)
   \/ (ch = 304 /\ Sre.lower_unicode ch = 105)
   \/ (ch = 8490 /\ Sre.lower_unicode ch = 107)
   \/ (~ 65 <= ch <= 90 /\ ch <> 304 /\ ch <> 8490
       /\ Sre.lower_unicode ch = ch))%N.
Proof.
  unfold Sre.lower_unicode.
  destruct (N.leb_spec 65 ch); destruct (N.leb_spec ch 90); simpl;
    try (left; split; [lia | reflexivity]);
    destruct (N.eqb_spec ch 304); try (right; left; split; [assumption | reflexivity]);
    destruct (N.eqb_spec ch 8490);
    try (right; right; left; split; [assumption | reflexivity]);
    right; right; right; repeat split; try assumption; lia.
Qed.

(** Which characters the letters of the scheme stand for.  The long s
    (U+017F) counts as an [s]. *)
Lemma scheme_characters (ch : N) :
  (Sre.same_char_I 104 ch <-> ch = 104 \/ ch = 72)%N
  /\ (Sre.same_char_I 116 ch <-> ch = 116 \/ ch = 84)%N
  /\ (Sre.same_char_I 112 ch <-> ch = 112 \/ ch = 80)%N
  /\ (Sre.same_char_I 115 ch <-> ch = 115 \/ ch = 83 \/ ch = 383)%N
  /\ (Sre.same_char_I 58 ch <-> ch = 58)%N
  /\ (Sre.same_char_I 47 ch <-> ch = 47)%N.
Proof.
  unfold Sre.same_char_I.
  change (Sre.compile_char true 104) with (Sre.LITERAL_UNI_IGNORE 104).
  change (Sre.compile_char true 116) with (Sre.LITERAL_UNI_IGNORE 116).
  change (Sre.compile_char true 112) with (Sre.LITERAL_UNI_IGNORE 112).
  change (Sre.compile_char true 115) with (Sre.IN_UNI_IGNORE [115; 383]%N).
  change (Sre.compile_char true 58) with (Sre.LITERAL 58).
  change (Sre.compile_char true 47) with (Sre.LITERAL 47).
  cbn [Sre.accepts existsb].
  rewrite !orb_true_iff, !N.eqb_eq.
  destruct (lower_unicode_cases ch)
    as [[Hr ->]|[[-> ->]|[[-> ->]|(Hr & H1 & H2 & ->)]]];
    repeat split; intros; try lia;
    repeat match goal with
      | H : _ \/ _ |- _ => destruct H
      end; try discriminate; try lia.
Qed.

Section UrlHandler.

Context `{Collab}.

(** The URL handler once the scheme check has passed. *)
Lemma url_handler_run url quality lossless width height timeout :
  Sre.match_I (lit "^https?://") url = true ->
  convert_url_to_avif url quality lossless width height timeout
  = match client_get timeout true url with
    | Raise e => ([EvGet timeout true url], url_error_reply e)
    | Ret resp =>
        match raise_for_status resp with
        | Raise e => ([EvGet timeout true url], url_error_reply e)
        | Ret _ =>
            match _to_avif_bytes (content resp) quality lossless width height with
            | (t, Ret avif) => (EvGet timeout true url :: t, url_success_reply avif)
            | (t, Raise e) => (EvGet timeout true url :: t, url_error_reply e)
            end
        end
    end.
Proof.
  intros Hm. unfold convert_url_to_avif, url_error_reply, url_success_reply.
  rewrite Hm. cbn [negb]. unfold bind, call, pure_, ret.
  destruct (client_get timeout true url) as [resp|e].
  - destruct (raise_for_status resp) as [[]|e].
    + destruct (negb (str_in (fetched_content_type resp) image_types));
        destruct (_to_avif_bytes (content resp) quality lossless width height)
          as [t [avif|e]]; cbn [app]; rewrite ?app_nil_r; try reflexivity;
        match goal with
        | |- context [is_HTTPError ?c] => destruct (is_HTTPError c)
        end; reflexivity.
    + simpl. destruct (is_HTTPError (exc_cls e)); reflexivity.
  - destruct (is_HTTPError (exc_cls e)); reflexivity.
Qed.

Lemma raise_for_status_ok resp :
  200 <= status_code resp <= 299 -> raise_for_status resp = Ret tt.
Proof.
  intros [H1 H2]. unfold raise_for_status.
  destruct (Z.leb_spec 200 (status_code resp)); [|lia].
  destruct (Z.leb_spec (status_code resp) 299); [reflexivity|lia].
Qed.

Lemma raise_for_status_error resp :
  ~ 200 <= status_code resp <= 299 ->
  raise_for_status resp
  = Raise (mk_exn HTTPStatusError (status_error_message resp)).
Proof.
  intros Hn. unfold raise_for_status.
  destruct (Z.leb_spec 200 (status_code resp));
    destruct (Z.leb_spec (status_code resp) 299); simpl; try reflexivity. lia.
Qed.

(** A run of the routine starts by opening the data. *)
Lemma routine_opens data quality lossless width height :
  exists t, fst (_to_avif_bytes data quality lossless width height)
            = EvOpen data :: t.
Proof.
  destruct (Image_open data) as [img|e] eqn:Hopen.
  - rewrite (routine_run _ _ _ _ _ _ Hopen).
    destruct (normalize_mode img) as [t1 [i1|e]]; [|simpl; eauto].
    unfold finish.
    destruct (optional_resize width height i1) as [t2 [i2|e]]; simpl; eauto.
  - rewrite (routine_undecodable _ _ _ _ _ _ Hopen). simpl. eauto.
Qed.

End UrlHandler.

(** C6.  A URL that does not begin, letter case ignored, with [http://]
    or [https://] gets the 400 exception and the handler makes no call at
    all.  A URL that does begin so passes: the handler's first call is the
    fetch of that very URL, and its reply is not the 400 exception. *)
Theorem C6_url_scheme_check
    {C : Collab}
    (url : str) (quality : Z) (lossless : bool) (width height : option Z)
    (timeout : float) :
  (~ http_scheme url ->
   convert_url_to_avif url quality lossless width height timeout
   = ([], HTTPException 400 (lit "Invalid URL.")))
  /\ (http_scheme url ->
      exists t r,
        convert_url_to_avif url quality lossless width height timeout
        = (EvGet timeout true url :: t, r)
        /\ forall d, r <> HTTPException 400 d).
Proof.
  split.
  - intros Hn. unfold convert_url_to_avif.
    destruct (Sre.match_I (lit "^https?://") url) eqn:Hm; [|reflexivity].
    exfalso. apply Hn. now apply http_scheme_match.
  - intros Hs. apply http_scheme_match in Hs.
    rewrite (url_handler_run _ _ _ _ _ _ Hs).
    assert (He : forall e d, url_error_reply e <> HTTPException 400 d).
    { intros e d. unfold url_error_reply.
      destruct (is_HTTPError (exc_cls e)); discriminate. }
    destruct (client_get timeout true url) as [resp|e]; [|eauto].
    destruct (raise_for_status resp) as [[]|e]; [|eauto].
    destruct (_to_avif_bytes (content resp) quality lossless width height)
      as [t [avif|e]]; [|eauto].
    exists t, (url_success_reply avif). split; [reflexivity|]. discriminate.
Qed.

(** The specification's example, and a URL in capitals. *)
Lemma C6_examples :
  ~ http_scheme (lit "ftp://example.com/x.png")
  /\ http_scheme (lit "HTTPS://example.com/x.png")
  /\ http_scheme (lit "http://")
  /\ ~ http_scheme (lit " http://example.com").
Proof.
  rewrite <- !http_scheme_match. repeat split; try reflexivity;
    intros E; discriminate E.
Qed.

(** C6 on the specification's example URL. *)
Lemma C6_witness :
  @convert_url_to_avif Sim.collab (lit "ftp://example.com/x.png")
    60 false None None Sim.twenty
  = ([], HTTPException 400 (lit "Invalid URL.")).
Proof.
  apply (proj1 (@C6_url_scheme_check Sim.collab (lit "ftp://example.com/x.png")
                  60 false None None Sim.twenty)).
  rewrite <- http_scheme_match. intros E. discriminate E.
Defined.

(** ** C7: error replies of the URL handler *)

(** C7.  For a URL that passes the scheme check: when the fetch raises an
    [httpx.HTTPError] (a connection error, a timeout, ...), or the fetched
    status is not 2xx so that [raise_for_status] raises, the reply is the
    502 exception whose detail is "Fetch failed: " followed by the error's
    message; when the fetch succeeded and the conversion raises an
    exception that is not an [httpx.HTTPError], the reply is the 500
    exception with that exception's message. *)
Theorem C7_fetch_errors_502_others_500
    {C : Collab}
    (url : str) (quality : Z) (lossless : bool) (width height : option Z)
    (timeout : float) :
  http_scheme url ->
  (forall e,
      client_get timeout true url = Raise e ->
      is_HTTPError (exc_cls e) = true ->
      convert_url_to_avif url quality lossless width height timeout
      = ([EvGet timeout true url],
         HTTPException 502 (lit "Fetch failed: " ++ exc_str e)))
  /\ (forall resp,
      client_get timeout true url = Ret resp ->
      ~ 200 <= status_code resp <= 299 ->
      convert_url_to_avif url quality lossless width height timeout
      = ([EvGet timeout true url],
         HTTPException 502
           (lit "Fetch failed: " ++ status_error_message resp)))
  /\ (forall resp t e,
      client_get timeout true url = Ret resp ->
      200 <= status_code resp <= 299 ->
      _to_avif_bytes (content resp) quality lossless width height
      = (t, Raise e) ->
      is_HTTPError (exc_cls e) = false ->
      convert_url_to_avif url quality lossless width height timeout
      = (EvGet timeout true url :: t, HTTPException 500 (exc_str e))).
Proof.
  intros Hs. apply http_scheme_match in Hs.
  rewrite (url_handler_run _ _ _ _ _ _ Hs). repeat split.
  - intros e Hg He. rewrite Hg. unfold url_error_reply. now rewrite He.
  - intros resp Hg Hst. rewrite Hg, (raise_for_status_error _ Hst).
    reflexivity.
  - intros resp t e Hg Hst Hrun He.
    rewrite Hg, (raise_for_status_ok _ Hst), Hrun.
    unfold url_error_reply. now rewrite He.
Qed.

(** The transport failures named by the specification are
    [httpx.HTTPError]s. *)
Lemma transport_errors_are_HTTPError :
  forallb is_HTTPError
    [ConnectError; ReadError; ConnectTimeout; ReadTimeout; WriteTimeout;
     PoolTimeout; HTTPStatusError] = true.
Proof. reflexivity. Qed.

(** C7 on the simulated collaborators: a remote 404. *)
Lemma C7_witness :
  @convert_url_to_avif Sim.collab (lit "http://example.org/missing")
    60 false None None Sim.twenty
  = ([EvGet Sim.twenty true (lit "http://example.org/missing")],
     HTTPException 502 (lit "Fetch failed: Client error '404 Not Found'")).
Proof.
  refine (proj1 (proj2
            (@C7_fetch_errors_502_others_500 Sim.collab
               (lit "http://example.org/missing") 60 false None None
               Sim.twenty _))
            (mk_httpx_response 404 (Some (lit "text/html")) []) _ _).
  - rewrite <- http_scheme_match. reflexivity.
  - reflexivity.
  - simpl. lia.
Defined.

(** ** C8: the fetched content type *)

(** C8.  After a fetch that succeeded with a 2xx status, the handler goes
    on to the conversion routine on the fetched bytes, and its trace and
    reply are those of that conversion: the content-type header of the
    fetched resource does not enter the result. *)
Theorem C8_fetched_type_not_enforced
    {C : Collab}
    (url : str) (quality : Z) (lossless : bool) (width height : option Z)
    (timeout : float) (resp : httpx_response) :
  http_scheme url ->
  client_get timeout true url = Ret resp ->
  200 <= status_code resp <= 299 ->
  convert_url_to_avif url quality lossless width height timeout
  = (EvGet timeout true url
       :: fst (_to_avif_bytes (content resp) quality lossless width height),
     match snd (_to_avif_bytes (content resp) quality lossless width height) with
     | Ret avif => url_success_reply avif
     | Raise e => url_error_reply e
     end)
  /\ exists t,
      fst (convert_url_to_avif url quality lossless width height timeout)
      = EvGet timeout true url :: EvOpen (content resp) :: t.
Proof.
  intros Hs Hg Hst. apply http_scheme_match in Hs.
  rewrite (url_handler_run _ _ _ _ _ _ Hs), Hg, (raise_for_status_ok _ Hst).
  destruct (routine_opens (content resp) quality lossless width height)
    as [t' Ht'].
  destruct (_to_avif_bytes (content resp) quality lossless width height)
    as [t [avif|e]]; simpl in *; subst t; eauto.
Qed.

(** C8 on the simulated collaborators: a picture served as [text/plain]
    is converted all the same. *)
Lemma C8_witness :
  @convert_url_to_avif Sim.collab (lit "https://example.org/picture")
    60 false None None Sim.twenty
  = (EvGet Sim.twenty true (lit "https://example.org/picture")
       :: fst (@_to_avif_bytes Sim.collab Sim.picture 60 false None None),
     match snd (@_to_avif_bytes Sim.collab Sim.picture 60 false None None) with
     | Ret avif => url_success_reply avif
     | Raise e => url_error_reply e
     end)
  /\ exists t,
      fst (@convert_url_to_avif Sim.collab (lit "https://example.org/picture")
             60 false None None Sim.twenty)
      = EvGet Sim.twenty true (lit "https://example.org/picture")
          :: EvOpen Sim.picture :: t.
Proof.
  apply (@C8_fetched_type_not_enforced Sim.collab
           (lit "https://example.org/picture") 60 false None None Sim.twenty
           (mk_httpx_response 200 (Some (lit "text/plain; charset=utf-8"))
              Sim.picture)).
  - rewrite <- http_scheme_match. reflexivity.
  - reflexivity.
  - simpl. lia.
Defined.

(** ** The upload handler *)

Section UploadHandler.

Context `{Collab}.

(** The upload handler once the content type is accepted and the body is
    read. *)
Lemma upload_handler_run file quality lossless width height data :
  is_image_type (content_type file) = true ->
  read file = Ret data ->
  convert_file_to_avif file quality lossless width height
  = match _to_avif_bytes data quality lossless width height with
    | (t, Ret avif) =>
        (EvRead file :: t,
         Reply (mk_Response 200 avif (lit "image/avif")
                  [(lit "Content-Disposition",
                    content_disposition (base_name (filename file)))]))
    | (t, Raise e) => (EvRead file :: t, HTTPException 500 (exc_str e))
    end.
Proof.
  intros Hct Hread. unfold convert_file_to_avif, content_disposition.
  rewrite Hct. cbn [negb]. unfold bind, call, ret. rewrite Hread.
  destruct (_to_avif_bytes data quality lossless width height) as [t [avif|e]];
    cbn [app]; rewrite ?app_nil_r; reflexivity.
Qed.

(** A reply with a response comes from a successful conversion and carries
    the suggested file name. *)
Lemma upload_reply_headers file quality lossless width height t r :
  convert_file_to_avif file quality lossless width height = (t, Reply r) ->
  headers r = [(lit "Content-Disposition",
                content_disposition (base_name (filename file)))].
Proof.
  unfold convert_file_to_avif.
  destruct (negb (is_image_type (content_type file))) eqn:Hct; [discriminate|].
  apply negb_false_iff in Hct.
  destruct (read file) as [data|e] eqn:Hread.
  - intros E.
    pose proof (upload_handler_run file quality lossless width height data
                  Hct Hread) as Hrun.
    unfold convert_file_to_avif in Hrun. rewrite Hct, Hread in Hrun.
    cbn [negb] in Hrun. rewrite Hrun in E.
    destruct (_to_avif_bytes data quality lossless width height)
      as [t' [avif|e]]; [|discriminate].
    injection E as _ <-. reflexivity.
  - unfold bind, call. discriminate.
Qed.

End UploadHandler.

(** ** C9: the suggested file name *)

Lemma rsplit_last_absent (sep : N) (s : str) :
  ~ In sep s -> rsplit_last sep s = None.
Proof.
  induction s as [|c s IH]; intros Hn; [reflexivity|]. simpl.
  rewrite IH by (intros Hi; apply Hn; now right).
  destruct (N.eqb_spec c sep) as [->|]; [|reflexivity].
  exfalso. apply Hn. now left.
Qed.

Lemma rsplit_last_at (sep : N) (p q : str) :
  ~ In sep q -> rsplit_last sep (p ++ sep :: q) = Some (p, q).
Proof.
  intros Hn. induction p as [|c p IH]; simpl.
  - now rewrite (rsplit_last_absent _ _ Hn), N.eqb_refl.
  - now rewrite IH.
Qed.

Lemma base_name_given (s : str) :
  s <> [] -> base_name (Some s) = hd [] (rsplit1 dot s).
Proof. destruct s; [contradiction | reflexivity]. Qed.

(** C9.  When the upload handler replies with a response, its
    Content-Disposition header is [attachment; filename="<base>.avif"]
    where the base is: everything before the last dot of the file name; the
    whole name when it has no dot; empty for the name [.png], giving the
    file name [.avif]; and [image] when the name is absent or empty.  A
    name that is present and not empty is never replaced by the default. *)
Theorem C9_suggested_filename
    {C : Collab}
    (file : UploadFile) (quality : Z) (lossless : bool)
    (width height : option Z) (t : list event) (r : Response) :
  convert_file_to_avif file quality lossless width height = (t, Reply r) ->
  headers r = [(lit "Content-Disposition",
                content_disposition (base_name (filename file)))]
  /\ (forall p q, filename file = Some (p ++ dot :: q) -> ~ In dot q ->
      base_name (filename file) = p)
  /\ (forall s, filename file = Some s -> s <> [] -> ~ In dot s ->
      base_name (filename file) = s)
  /\ (filename file = Some (lit ".png") ->
      base_name (filename file) = []
      /\ headers r = [(lit "Content-Disposition",
                       lit "attachment; filename=" ++ quote ++ lit ".avif"
                         ++ quote)])
  /\ (filename file = None \/ filename file = Some [] ->
      base_name (filename file) = lit "image")
  /\ (forall s, filename file = Some s -> s <> [] ->
      base_name (filename file) = hd [] (rsplit1 dot s)).
Proof.
  intros Hrun. pose proof (upload_reply_headers _ _ _ _ _ _ _ Hrun) as Hh.
  split; [exact Hh|]. split; [|split; [|split; [|split]]].
  - intros p q E Hq. rewrite E, base_name_given by (now destruct p).
    unfold rsplit1. now rewrite rsplit_last_at.
  - intros s E Hne Hs. rewrite E, base_name_given by assumption.
    unfold rsplit1. now rewrite rsplit_last_absent.
  - intros E. rewrite Hh, E. split; reflexivity.
  - intros [E|E]; rewrite E; reflexivity.
  - intros s E Hne. rewrite E. now apply base_name_given.
Qed.

(** C9 on the simulated collaborators, for an upload named [.png]. *)
Lemma C9_witness :
  exists t r,
    @convert_file_to_avif Sim.collab
      (Sim.upload "image/png" ".png" Sim.picture) 60 false None None
    = (t, Reply r)
    /\ headers r = [(lit "Content-Disposition",
                     lit "attachment; filename=" ++ quote ++ lit ".avif"
                       ++ quote)].
Proof.
  eexists. eexists. split; [reflexivity|].
  refine (proj2 (proj1 (proj2 (proj2 (proj2
            (@C9_suggested_filename Sim.collab
               (Sim.upload "image/png" ".png" Sim.picture) 60 false None None
               _ _ _)))) _)).
  - reflexivity.
  - reflexivity.
Defined.

Lemma C9_examples :
  base_name (Some (lit "photo.final.jpeg")) = lit "photo.final"
  /\ base_name (Some (lit "README")) = lit "README"
  /\ base_name (Some (lit ".png")) = []
  /\ base_name (Some (lit "archive.")) = lit "archive"
  /\ base_name None = lit "image"
  /\ base_name (Some []) = lit "image".
Proof. repeat split; reflexivity. Qed.

(** ** C10: a computed dimension of zero *)

Section ZeroDimension.

Context `{Collab} `{!PillowLaws}.

(** A resize of a normalized image to a size with a zero in it raises,
    and the run ends there. *)
Lemma finish_zero data quality lossless width height t1 i1 sz :
  optional_resize width height i1
  = ([EvResize i1 sz LANCZOS], resize i1 sz LANCZOS) ->
  size i1 <> sz -> (fst sz = 0 \/ snd sz = 0) ->
  encoder_calls t1 = [] ->
  exists e,
    resize i1 sz LANCZOS = Raise e
    /\ finish data quality lossless width height t1 i1
       = (EvOpen data :: t1 ++ [EvResize i1 sz LANCZOS], Raise e)
    /\ encoder_calls (EvOpen data :: t1 ++ [EvResize i1 sz LANCZOS]) = [].
Proof.
  intros E Hne Hz Henc. unfold finish. rewrite E.
  destruct (resize i1 sz LANCZOS) as [i2|e] eqn:Er.
  - exfalso. destruct sz as [tw th].
    destruct (resize_positive _ _ _ _ _ Er Hne) as [Hw Hh].
    simpl in Hz. lia.
  - exists e. repeat split. simpl. now rewrite encoder_calls_app, Henc.
Qed.

(** A run with a computed target of [sz] containing a zero raises without
    reaching the encoder; on an image that needs no conversion, the
    exception is the one raised by [resize]. *)
Lemma zero_target_fails data quality lossless width height img sz :
  Image_open data = Ret img ->
  (forall i1, size i1 = size img ->
     optional_resize width height i1
     = ([EvResize i1 sz LANCZOS], resize i1 sz LANCZOS)) ->
  size img <> sz -> (fst sz = 0 \/ snd sz = 0) ->
  exists t e,
    _to_avif_bytes data quality lossless width height = (t, Raise e)
    /\ encoder_calls t = []
    /\ (mode img = lit "RGB" \/ mode img = lit "RGBA" ->
        resize img sz LANCZOS = Raise e
        /\ resize_calls t = [(img, sz, LANCZOS)]).
Proof.
  intros Hopen Hopt Hne Hz. rewrite (routine_run _ _ _ _ _ _ Hopen).
  destruct (normalize_mode_cases img) as [[Hm E]|[Hm E]]; rewrite E.
  - destruct (finish_zero data quality lossless width height [] img sz
                (Hopt img eq_refl) Hne Hz eq_refl) as (e & Er & Ef & Henc).
    rewrite Ef. exists (EvOpen data :: [] ++ [EvResize img sz LANCZOS]), e.
    repeat split; assumption.
  - assert (Hnot : ~ (mode img = lit "RGB" \/ mode img = lit "RGBA")).
    { rewrite <- rgb_mode_iff, Hm. discriminate. }
    destruct (convert img (lit "RGBA")) as [i1|e] eqn:Ec.
    + pose proof (convert_size _ _ _ Ec) as Hs1.
      assert (Hne1 : size i1 <> sz) by (now rewrite Hs1).
      destruct (finish_zero data quality lossless width height
                  [EvConvert img (lit "RGBA")] i1 sz
                  (Hopt i1 Hs1) Hne1 Hz eq_refl) as (e & Er & Ef & Henc).
      rewrite Ef. eexists. exists e. repeat split; try assumption;
        contradiction.
    + eexists. exists e. repeat split; try reflexivity; contradiction.
Qed.

End ZeroDimension.

(** C10.  For an accepted upload whose image decodes with a positive size
    [(w, h)] and a request giving one dimension [g >= 1]: when the other
    dimension computes to 0, the handler replies with the 500 exception
    carrying an exception's message, and the encoder is never called; on an
    image that needs no mode conversion that exception is the one raised by
    the resize to the size with the zero. *)
Theorem C10_zero_dimension_is_500
    {C : Collab} {L : PillowLaws}
    (file : UploadFile) (quality : Z) (lossless : bool) (g : Z)
    (data : bytes) (img : image) (w h : Z) :
  is_image_type (content_type file) = true ->
  read file = Ret data ->
  Image_open data = Ret img ->
  size img = (w, h) -> 1 <= w -> 1 <= h -> 1 <= g ->
  (proportional w g h = Some 0 ->
   exists t e,
     convert_file_to_avif file quality lossless None (Some g)
     = (t, HTTPException 500 (exc_str e))
     /\ encoder_calls t = []
     /\ (mode img = lit "RGB" \/ mode img = lit "RGBA" ->
         resize img (0, g) LANCZOS = Raise e
         /\ resize_calls t = [(img, (0, g), LANCZOS)]))
  /\ (proportional h g w = Some 0 ->
      exists t e,
        convert_file_to_avif file quality lossless (Some g) None
        = (t, HTTPException 500 (exc_str e))
        /\ encoder_calls t = []
        /\ (mode img = lit "RGB" \/ mode img = lit "RGBA" ->
            resize img (g, 0) LANCZOS = Raise e
            /\ resize_calls t = [(img, (g, 0), LANCZOS)])).
Proof.
  intros Hct Hread Hopen Hsz Hw Hh Hg. split; intros P.
  - destruct (zero_target_fails data quality lossless None (Some g) img (0, g))
      as (t & e & Hrun & Henc & Hrgb); auto.
    + intros i1 Hs1. rewrite Hsz in Hs1.
      destruct (optional_resize_height g i1 w h Hg Hs1)
        as [(tw & P' & E)|(P' & _)]; [|congruence].
      rewrite P in P'. injection P' as <-. exact E.
    + rewrite Hsz. intros E. injection E as E1 E2. lia.
    + rewrite (upload_handler_run _ _ _ _ _ _ Hct Hread), Hrun.
      exists (EvRead file :: t), e. auto.
  - destruct (zero_target_fails data quality lossless (Some g) None img (g, 0))
      as (t & e & Hrun & Henc & Hrgb); auto.
    + intros i1 Hs1. rewrite Hsz in Hs1.
      destruct (optional_resize_width g i1 w h Hg Hs1)
        as [(th & P' & E)|(P' & _)]; [|congruence].
      rewrite P in P'. injection P' as <-. exact E.
    + rewrite Hsz. intros E. injection E as E1 E2. lia.
    + rewrite (upload_handler_run _ _ _ _ _ _ Hct Hread), Hrun.
      exists (EvRead file :: t), e. auto.
Qed.

(** C10 on the simulated collaborators: a 1 x 1000 image asked to be 1
    high. *)
Lemma C10_witness :
  proportional 1 1 1000 = Some 0
  /\ exists t e,
      @convert_file_to_avif Sim.collab
        (Sim.upload "image/png" "sliver.png" Sim.sliver) 60 false None (Some 1)
      = (t, HTTPException 500 (exc_str e))
      /\ encoder_calls t = []
      /\ (@mode Sim.collab (Sim.mk_img (lit "RGB") (1, 1000)) = lit "RGB"
          \/ @mode Sim.collab (Sim.mk_img (lit "RGB") (1, 1000)) = lit "RGBA" ->
          @resize Sim.collab (Sim.mk_img (lit "RGB") (1, 1000)) (0, 1) LANCZOS
          = Raise e
          /\ resize_calls t
             = [(Sim.mk_img (lit "RGB") (1, 1000), (0, 1), LANCZOS)]).
Proof.
  split; [reflexivity|].
  apply (proj1 (@C10_zero_dimension_is_500 Sim.collab sim_laws
                  (Sim.upload "image/png" "sliver.png" Sim.sliver) 60 false 1
                  Sim.sliver (Sim.mk_img (lit "RGB") (1, 1000)) 1 1000
                  eq_refl eq_refl eq_refl eq_refl
                  ltac:(lia) ltac:(lia) ltac:(lia))).
  reflexivity.
Defined.

(** Dimensions that compute to zero, and one that does not: the 1000 x 1
    image asked to be 1 high keeps its width of 1000. *)
Lemma zero_dimension_examples :
  proportional 1 1 1000 = Some 0
  /\ proportional 49 1 49 = Some 0
  /\ proportional 1000 1 1 = Some 1000.
Proof. repeat split; reflexivity. Qed.

(** * Further properties of the handlers and of the routine *)

Lemma sim_env_laws get sv : @PillowLaws (sim_env get sv).
Proof.
  constructor.
  - exact (@convert_mode _ sim_laws).
  - exact (@convert_size _ sim_laws).
  - exact (@resize_size _ sim_laws).
  - exact (@resize_mode _ sim_laws).
  - exact (@resize_positive _ sim_laws).
Qed.

(** ** The upload handler's replies *)

(** X1.  Once the content type is accepted, every exception of the upload
    path becomes the 500 exception with the exception's message: a failed
    read ends the request after the read alone, and a failed conversion
    gives 500 whatever the class of the exception, [httpx] errors
    included. *)
Theorem upload_errors_are_500
    {C : Collab}
    (file : UploadFile) (quality : Z) (lossless : bool)
    (width height : option Z) :
  is_image_type (content_type file) = true ->
  (forall e, read file = Raise e ->
     convert_file_to_avif file quality lossless width height
     = ([EvRead file], HTTPException 500 (exc_str e)))
  /\ (forall data t e,
      read file = Ret data ->
      _to_avif_bytes data quality lossless width height = (t, Raise e) ->
      convert_file_to_avif file quality lossless width height
      = (EvRead file :: t, HTTPException 500 (exc_str e))).
Proof.
  intros Hct. split.
  - intros e Hread. unfold convert_file_to_avif. rewrite Hct. cbn [negb].
    unfold bind, call. now rewrite Hread.
  - intros data t e Hread Hrun.
    now rewrite (upload_handler_run _ _ _ _ _ _ Hct Hread), Hrun.
Qed.

Lemma upload_errors_are_500_witness :
  @convert_file_to_avif Sim.collab
    (Sim.upload "image/png" "x.png" garbage) 60 false None None
  = ([EvRead (Sim.upload "image/png" "x.png" garbage); EvOpen garbage],
     HTTPException 500 (lit "cannot identify image file")).
Proof.
  apply (proj2 (@upload_errors_are_500 Sim.collab
                  (Sim.upload "image/png" "x.png" garbage) 60 false None None
                  eq_refl) garbage [EvOpen garbage]
           (mk_exn UnidentifiedImageError (lit "cannot identify image file"))).
  - reflexivity.
  - reflexivity.
Defined.



(** ** Data that does not decode *)

(** X4.  When [Image.open] raises, the routine raises that exception
    after the one call; an accepted upload of such data gets the 500
    exception with its message, and so does a fetched body, unless the
    exception is an [httpx.HTTPError]. *)
Theorem undecodable_is_500
    {C : Collab}
    (data : bytes) (e : exn) (quality : Z) (lossless : bool)
    (width height : option Z) :
  Image_open data = Raise e ->
  _to_avif_bytes data quality lossless width height = ([EvOpen data], Raise e)
  /\ (forall file,
      is_image_type (content_type file) = true -> read file = Ret data ->
      convert_file_to_avif file quality lossless width height
      = ([EvRead file; EvOpen data], HTTPException 500 (exc_str e)))
  /\ (forall url timeout resp,
      http_scheme url ->
      client_get timeout true url = Ret resp ->
      200 <= status_code resp <= 299 ->
      content resp = data ->
      is_HTTPError (exc_cls e) = false ->
      convert_url_to_avif url quality lossless width height timeout
      = ([EvGet timeout true url; EvOpen data], HTTPException 500 (exc_str e))).
Proof.
  intros Hopen.
  pose proof (routine_undecodable data quality lossless width height e Hopen)
    as Hrun.
  split; [exact Hrun|]. split.
  - intros file Hct Hread.
    now rewrite (upload_handler_run _ _ _ _ _ _ Hct Hread), Hrun.
  - intros url timeout resp Hs Hg Hst Hc He. apply http_scheme_match in Hs.
    rewrite (url_handler_run _ _ _ _ _ _ Hs), Hg, (raise_for_status_ok _ Hst).
    rewrite Hc, Hrun. unfold url_error_reply. now rewrite He.
Qed.

Lemma undecodable_is_500_witness :
  @_to_avif_bytes Sim.collab garbage 60 false (Some 10) None
  = ([EvOpen garbage],
     Raise (mk_exn UnidentifiedImageError (lit "cannot identify image file"))).
Proof.
  apply (proj1 (@undecodable_is_500 Sim.collab garbage
                  (mk_exn UnidentifiedImageError
                     (lit "cannot identify image file"))
                  60 false (Some 10) None eq_refl)).
Defined.

(** ** Errors of the fetch that are not [httpx.HTTPError]s *)

(** X5.  When the fetch raises an exception outside the [httpx.HTTPError]
    family (an [httpx.InvalidURL], say), the URL handler replies with the
    500 exception and the bare message, not with 502, and calls nothing
    after the fetch. *)
Theorem fetch_other_exception_is_500
    {C : Collab}
    (url : str) (quality : Z) (lossless : bool) (width height : option Z)
    (timeout : float) (e : exn) :
  http_scheme url ->
  client_get timeout true url = Raise e ->
  is_HTTPError (exc_cls e) = false ->
  convert_url_to_avif url quality lossless width height timeout
  = ([EvGet timeout true url], HTTPException 500 (exc_str e)).
Proof.
  intros Hs Hg He. apply http_scheme_match in Hs.
  rewrite (url_handler_run _ _ _ _ _ _ Hs), Hg.
  unfold url_error_reply. now rewrite He.
Qed.

Lemma fetch_other_exception_is_500_witness :
  @convert_url_to_avif
    (sim_env (failing_get (mk_exn InvalidURL (lit "Invalid port")))
       Sim.do_save)
    (lit "http://example.org:x/") 60 false None None Sim.twenty
  = ([EvGet Sim.twenty true (lit "http://example.org:x/")],
     HTTPException 500 (lit "Invalid port")).
Proof.
  apply (@fetch_other_exception_is_500
           (sim_env (failing_get (mk_exn InvalidURL (lit "Invalid port")))
              Sim.do_save)
           (lit "http://example.org:x/") 60 false None None Sim.twenty
           (mk_exn InvalidURL (lit "Invalid port"))).
  - rewrite <- http_scheme_match. reflexivity.
  - reflexivity.
  - reflexivity.
Defined.

(** ** The two endpoints convert alike *)



(** ** Declared content types are compared as they are *)

Lemma image_types_plain (s : str) :
  In s image_types -> forallb plain_type_char s = true.
Proof.
  intros [<-|[<-|[<-|[<-|[]]]]]; reflexivity.
Qed.

(** X7.  The upload handler compares the declared content type with the
    four accepted strings as it is, without trimming, lower-casing or
    dropping parameters: a declared type with any character other than a
    lower-case letter or a slash (a capital, a space, a semicolon) gets the
    415 exception, with no call made. *)
Theorem decorated_type_rejected
    {C : Collab}
    (file : UploadFile) (s : str) (quality : Z) (lossless : bool)
    (width height : option Z) :
  content_type file = Some s ->
  forallb plain_type_char s = false ->
  convert_file_to_avif file quality lossless width height
  = ([], HTTPException 415 (lit "Only JPEG/JPG/PNG/WEBP are accepted.")).
Proof.
  intros Hct Hplain. unfold convert_file_to_avif, is_image_type. rewrite Hct.
  destruct (str_in s image_types) eqn:Hin; [|reflexivity].
  apply str_in_In, image_types_plain in Hin. congruence.
Qed.

Lemma decorated_type_rejected_witness :
  @convert_file_to_avif Sim.collab
    (Sim.upload "image/png; charset=binary" "p.png" Sim.picture)
    60 false None None
  = ([], HTTPException 415 (lit "Only JPEG/JPG/PNG/WEBP are accepted.")).
Proof.
  apply (@decorated_type_rejected Sim.collab
           (Sim.upload "image/png; charset=binary" "p.png" Sim.picture)
           (lit "image/png; charset=binary") 60 false None None).
  - reflexivity.
  - reflexivity.
Defined.

(** ** A dimension of zero *)

(** X8.  The routine treats a width or height of 0 exactly as an absent
    one: the whole run, calls and result, is the same.  (The handlers
    refuse 0 before the routine is reached.) *)
Theorem zero_dimension_as_absent
    {C : Collab}
    (data : bytes) (quality : Z) (lossless : bool) (width height : option Z) :
  _to_avif_bytes data quality lossless width height
  = _to_avif_bytes data quality lossless (drop_zero width) (drop_zero height).
Proof.
  assert (E : forall img, optional_resize width height img
                          = optional_resize (drop_zero width) (drop_zero height) img).
  { intros img. unfold optional_resize. destruct (size img) as [w h].
    destruct width as [[|p|p]|]; destruct height as [[|p'|p']|]; reflexivity. }
  destruct (Image_open data) as [img|e] eqn:Hopen.
  - rewrite !(routine_run _ _ _ _ _ _ Hopen).
    destruct (normalize_mode img) as [t1 [i1|e]]; [|reflexivity].
    unfold finish. now rewrite E.
  - now rewrite !(routine_undecodable _ _ _ _ _ _ Hopen).
Qed.

(** ** The order of the calls *)

Section Order.

Context `{Collab}.

(** The calls of a run: the decode, then at most one conversion, at most
    one resize and at most one encoder call. *)
Lemma routine_trace_shape data quality lossless width height :
  exists c r s,
    fst (_to_avif_bytes data quality lossless width height)
    = EvOpen data :: c ++ r ++ s
    /\ (c = [] \/ exists i m, c = [EvConvert i m])
    /\ (r = [] \/ exists i sz f, r = [EvResize i sz f])
    /\ (s = [] \/ exists i ps, s = [EvSave i ps]).
Proof.
  destruct (Image_open data) as [img|e] eqn:Hopen.
  - rewrite (routine_run _ _ _ _ _ _ Hopen).
    assert (Hfin : forall t1 i1,
               (t1 = [] \/ exists i m, t1 = [EvConvert i m]) ->
               exists c r s,
                 fst (finish data quality lossless width height t1 i1)
                 = EvOpen data :: c ++ r ++ s
                 /\ (c = [] \/ exists i m, c = [EvConvert i m])
                 /\ (r = [] \/ exists i sz f, r = [EvResize i sz f])
                 /\ (s = [] \/ exists i ps, s = [EvSave i ps])).
    { intros t1 i1 Ht1. unfold finish.
      destruct (optional_resize_shape width height i1) as [E|[[e E]|[sz E]]];
        rewrite E.
      - exists t1, [], [EvSave i1 (save_params quality lossless)].
        repeat split; eauto.
      - exists t1, [], []. repeat split; auto.
      - destruct (resize i1 sz LANCZOS) as [i2|e].
        + exists t1, [EvResize i1 sz LANCZOS],
            [EvSave i2 (save_params quality lossless)].
          repeat split; eauto.
        + exists t1, [EvResize i1 sz LANCZOS], [].
          simpl. rewrite ?app_nil_r. repeat split; eauto. }
    destruct (normalize_mode_cases img) as [[_ E]|[_ E]]; rewrite E.
    + apply Hfin. now left.
    + destruct (convert img (lit "RGBA")) as [i1|e].
      * apply Hfin. right. eauto.
      * exists [EvConvert img (lit "RGBA")], [], []. repeat split; eauto.
  - rewrite (routine_undecodable _ _ _ _ _ _ Hopen).
    exists [], [], []. repeat split; auto.
Qed.

Lemma routine_after_zero data quality lossless width height :
  StronglySorted lt
    (0%nat :: List.map rank (fst (_to_avif_bytes data quality lossless width height))).
Proof.
  destruct (routine_trace_shape data quality lossless width height)
    as (c & r & s & -> & Hc & Hr & Hs).
  destruct Hc as [->|(i & m & ->)]; destruct Hr as [->|(i' & sz & f & ->)];
    destruct Hs as [->|(i'' & ps & ->)]; simpl;
    repeat (constructor; [|repeat constructor; lia]); constructor.
Qed.

End Order.

(** X9.  In every run of the routine and of either handler the calls come
    in the order read or fetch, decode, convert, resize, encode, and each
    is made at most once: nothing is retried, and nothing is called after
    the encoder. *)
Theorem calls_in_order
    {C : Collab}
    (data : bytes) (file : UploadFile) (url : str) (quality : Z)
    (lossless : bool) (width height : option Z) (timeout : float) :
  in_order (fst (_to_avif_bytes data quality lossless width height))
  /\ in_order (fst (convert_file_to_avif file quality lossless width height))
  /\ in_order (fst (convert_url_to_avif url quality lossless width height timeout)).
Proof.
  unfold in_order. split; [|split].
  - pose proof (routine_after_zero data quality lossless width height) as Hs.
    now inversion Hs.
  - unfold convert_file_to_avif.
    destruct (negb (is_image_type (content_type file))); [constructor|].
    unfold bind, call, ret.
    destruct (read file) as [d|e]; [|simpl; repeat constructor].
    pose proof (routine_after_zero d quality lossless width height) as Hs.
    destruct (_to_avif_bytes d quality lossless width height) as [t [a|e]];
      simpl in *; rewrite ?app_nil_r; exact Hs.
  - destruct (Sre.match_I (lit "^https?://") url) eqn:Hm.
    + rewrite (url_handler_run _ _ _ _ _ _ Hm).
      destruct (client_get timeout true url) as [resp|e];
        [|simpl; repeat constructor].
      destruct (raise_for_status resp) as [[]|e]; [|simpl; repeat constructor].
      pose proof (routine_after_zero (content resp) quality lossless width height)
        as Hs.
      destruct (_to_avif_bytes (content resp) quality lossless width height)
        as [t [a|e]]; simpl in *; exact Hs.
    + unfold convert_url_to_avif. rewrite Hm. constructor.
Qed.

(** ** What the resize and the encoder are given *)

(** X10.  Every resize call of a run is made on the normalized image, so
    on an image whose mode is RGB or RGBA, and with the Lanczos filter: the
    routine never resizes a palette image. *)
Theorem resize_after_normalization
    {C : Collab} {L : PillowLaws}
    (data : bytes) (quality : Z) (lossless : bool) (width height : option Z)
    (i : image) (sz : Z * Z) (f : resample) :
  In (i, sz, f)
    (resize_calls (fst (_to_avif_bytes data quality lossless width height))) ->
  (mode i = lit "RGB" \/ mode i = lit "RGBA") /\ f = LANCZOS.
Proof.
  destruct (Image_open data) as [img|e] eqn:Hopen.
  - rewrite (routine_run _ _ _ _ _ _ Hopen).
    pose proof (normalize_trace img) as [Hr _].
    destruct (normalize_mode img) as [t1 [i1|e]] eqn:E1; simpl in Hr.
    + destruct (normalize_ok _ _ _ E1) as (_ & Hm & _).
      apply rgb_mode_iff in Hm. unfold finish.
      destruct (optional_resize_shape width height i1) as [E|[[e E]|[sz' E]]];
        rewrite E.
      * simpl. rewrite !resize_calls_app, Hr. intros [].
      * simpl. rewrite !resize_calls_app, Hr. intros [].
      * destruct (resize i1 sz' LANCZOS) as [i2|e]; simpl;
          rewrite !resize_calls_app, Hr; simpl;
          intros [E'|[]]; injection E' as <- _ <-; auto.
    + simpl. rewrite Hr. intros [].
  - rewrite (routine_undecodable _ _ _ _ _ _ Hopen). intros [].
Qed.

Lemma resize_after_normalization_witness :
  (@mode Sim.collab (Sim.mk_img (lit "RGBA") (800, 600)) = lit "RGB"
   \/ @mode Sim.collab (Sim.mk_img (lit "RGBA") (800, 600)) = lit "RGBA")
  /\ LANCZOS = LANCZOS.
Proof.
  apply (@resize_after_normalization Sim.collab sim_laws Sim.picture 60 false
           (Some 400) None (Sim.mk_img (lit "RGBA") (800, 600)) (400, 300)).
  simpl. left. reflexivity.
Defined.

(** X11.  Quality and the lossless flag reach nothing but the encoder: two
    runs on the same data and dimensions make the same conversion and
    resize calls and encode the same image whatever these two options are.
    Without the lossless flag the encoder is given exactly format AVIF
    and the caller's quality, unchanged and unchecked. *)
Theorem options_reach_only_the_encoder
    {C : Collab}
    (data : bytes) (q q' : Z) (l l' : bool) (width height : option Z) :
  convert_calls (fst (_to_avif_bytes data q l width height))
  = convert_calls (fst (_to_avif_bytes data q' l' width height))
  /\ resize_calls (fst (_to_avif_bytes data q l width height))
     = resize_calls (fst (_to_avif_bytes data q' l' width height))
  /\ List.map fst (encoder_calls (fst (_to_avif_bytes data q l width height)))
     = List.map fst (encoder_calls (fst (_to_avif_bytes data q' l' width height)))
  /\ (forall i ps,
      In (i, ps) (encoder_calls (fst (_to_avif_bytes data q false width height))) ->
      ps = [(lit "format", VStr (lit "AVIF")); (lit "quality", VInt q)]).
Proof.
  split; [|split; [|split]].
  4:{ intros i ps Hin. now apply encoder_params in Hin. }
  all: destruct (Image_open data) as [img|e] eqn:Hopen;
    [ rewrite !(routine_run _ _ _ _ _ _ Hopen);
      destruct (normalize_mode img) as [t1 [i1|e]]; [|reflexivity];
      unfold finish;
      destruct (optional_resize width height i1) as [t2 [i2|e]];
      [|reflexivity]; simpl;
      rewrite ?convert_calls_app, ?resize_calls_app, ?encoder_calls_app,
        ?map_app; reflexivity
    | now rewrite !(routine_undecodable _ _ _ _ _ _ Hopen) ].
Qed.

(** ** An image with a side of zero *)

(** X12.  When the normalized image has height 0 and only a height is
    asked for (or has width 0 and only a width is asked for), the routine
    raises [ZeroDivisionError] while computing the other dimension, before
    any resize or encoder call. *)
Theorem zero_side_divides_by_zero
    {C : Collab} {L : PillowLaws}
    (data : bytes) (quality : Z) (lossless : bool) (g : Z)
    (img i1 : image) (w h : Z) :
  Image_open data = Ret img -> normalizes_to img i1 ->
  size img = (w, h) -> g <> 0 ->
  (h = 0 ->
   snd (_to_avif_bytes data quality lossless None (Some g))
   = Raise (mk_exn ZeroDivisionError (lit "division by zero"))
   /\ resize_calls (fst (_to_avif_bytes data quality lossless None (Some g))) = []
   /\ encoder_calls (fst (_to_avif_bytes data quality lossless None (Some g))) = [])
  /\ (w = 0 ->
      snd (_to_avif_bytes data quality lossless (Some g) None)
      = Raise (mk_exn ZeroDivisionError (lit "division by zero"))
      /\ resize_calls (fst (_to_avif_bytes data quality lossless (Some g) None)) = []
      /\ encoder_calls (fst (_to_avif_bytes data quality lossless (Some g) None)) = []).
Proof.
  intros Hopen Hn Hsz Hg.
  assert (E1 : exists t1, normalize_mode img = (t1, Ret i1)
                          /\ resize_calls t1 = [] /\ encoder_calls t1 = []
                          /\ size i1 = (w, h)).
  { destruct (normalize_mode_cases img) as [[Hm E']|[Hm E']];
      destruct Hn as [[Hy ->]|[Hnot Ec]].
    - eauto 6.
    - exfalso. apply Hnot. now apply rgb_mode_iff.
    - apply rgb_mode_iff in Hy. congruence.
    - rewrite Ec in E'. rewrite <- Hsz, <- (convert_size _ _ _ Ec). eauto 6. }
  destruct E1 as (t1 & E1 & Hr & He & Hs1).
  rewrite !(routine_run _ _ _ _ _ _ Hopen), E1. unfold finish.
  split; intros ->.
  - assert (E : optional_resize None (Some g) i1
                = ([], Raise (mk_exn ZeroDivisionError (lit "division by zero")))).
    { unfold optional_resize. rewrite (truthy_height g Hg), Hs1. reflexivity. }
    rewrite E. simpl. rewrite app_nil_r, Hr, He. auto.
  - assert (E : optional_resize (Some g) None i1
                = ([], Raise (mk_exn ZeroDivisionError (lit "division by zero")))).
    { unfold optional_resize. rewrite (truthy_given g None Hg), Hs1.
      rewrite (or_scaled_given g 0 None h Hg). reflexivity. }
    rewrite E. simpl. rewrite app_nil_r, Hr, He. auto.
Qed.

Lemma zero_side_divides_by_zero_witness :
  snd (@_to_avif_bytes Sim.collab flat 60 false None (Some 7))
  = Raise (mk_exn ZeroDivisionError (lit "division by zero"))
  /\ resize_calls (fst (@_to_avif_bytes Sim.collab flat 60 false None (Some 7))) = []
  /\ encoder_calls (fst (@_to_avif_bytes Sim.collab flat 60 false None (Some 7))) = [].
Proof.
  refine (proj1 (@zero_side_divides_by_zero Sim.collab sim_laws flat 60 false 7
                   (Sim.mk_img (lit "RGB") (5, 0)) (Sim.mk_img (lit "RGB") (5, 0))
                   5 0 _ _ _ _) _).
  - reflexivity.
  - left. split; [left|]; reflexivity.
  - reflexivity.
  - lia.
  - reflexivity.
Defined.

(** ** The computed dimension is never negative *)

Lemma binary_round_aux_sign sx m e l :
  match binary_round_aux prec emax sx m e l with
  | S754_zero s => s = sx
  | S754_infinity s => s = sx
  | S754_finite s _ _ => s = sx
  | S754_nan => True
  end.
Proof.
  unfold binary_round_aux.
  destruct (shr_fexp prec emax m e l) as [mrs' e'].
  destruct (shr_fexp prec emax _ e' loc_Exact) as [mrs'' e''].
  destruct (shr_m mrs''); auto.
  destruct (e'' <=? emax - prec); auto.
Qed.

Lemma float_of_nonneg (a : Z) :
  0 <= a -> not_negative (binary_normalize prec emax a 0 false).
Proof.
  intros Ha. destruct a as [|p|p]; [reflexivity| |lia].
  unfold binary_normalize, binary_round.
  destruct (shl_align p 0 _) as [mz ez].
  apply (binary_round_aux_sign false).
Qed.

Lemma quotient_of_nonneg (g b : Z) :
  0 <= g -> 0 <= b -> not_negative (SFdiv prec emax (exact g) (exact b)).
Proof.
  intros Hg Hb.
  destruct g as [|p|p]; destruct b as [|p'|p']; try lia; try reflexivity.
  unfold exact, SFdiv.
  destruct (SFdiv_core_binary prec emax (Z.pos p) 0 (Z.pos p') 0) as [[mz ez] lz].
  apply (binary_round_aux_sign (xorb false false)).
Qed.

Lemma product_of_nonneg (x y : float) :
  not_negative x -> not_negative y -> not_negative (SFmul prec emax x y).
Proof.
  destruct x as [sx|sx| |sx mx ex]; destruct y as [sy|sy| |sy my ey];
    simpl; intros; subst; try reflexivity; try exact I.
  apply (binary_round_aux_sign (xorb false false)).
Qed.

Lemma trunc_of_nonneg (f : float) (t : Z) :
  not_negative f -> trunc f = Some t -> 0 <= t.
Proof.
  destruct f as [s|s| |s m e]; simpl; try discriminate.
  - intros _ E. injection E as <-. lia.
  - intros -> E. injection E as <-.
    destruct e; [apply Z.shiftl_nonneg | apply Z.shiftl_nonneg
                | apply Z.shiftr_nonneg]; lia.
Qed.

Lemma proportional_nonneg (a g b t : Z) :
  0 <= a -> 0 <= g -> 0 <= b -> proportional a g b = Some t -> 0 <= t.
Proof.
  intros Ha Hg Hb. unfold proportional. apply trunc_of_nonneg.
  apply product_of_nonneg;
    [now apply float_of_nonneg | now apply quotient_of_nonneg].
Qed.

(** The resize calls of a run are those of the resize stage on the
    normalized image. *)
Lemma resize_calls_of_run `{Collab} `{!PillowLaws}
    data quality lossless width height img x :
  Image_open data = Ret img ->
  In x (resize_calls (fst (_to_avif_bytes data quality lossless width height))) ->
  exists i1, size i1 = size img
             /\ In x (resize_calls (fst (optional_resize width height i1))).
Proof.
  intros Hopen. rewrite (routine_run _ _ _ _ _ _ Hopen).
  pose proof (normalize_trace img) as [Hr _].
  destruct (normalize_mode img) as [t1 [i1|e]] eqn:E1; simpl in Hr.
  - destruct (normalize_ok _ _ _ E1) as (Hs1 & _). unfold finish.
    intros Hin. exists i1. split; [assumption|].
    destruct (optional_resize width height i1) as [t2 [i2|e]]; simpl in *;
      rewrite !resize_calls_app, Hr in Hin; simpl in Hin;
      rewrite ?app_nil_r in Hin; assumption.
  - simpl. rewrite Hr. intros [].
Qed.

(** X13.  For an image of non-negative size and a request whose given
    dimensions are at least 1, no resize call has a negative target
    dimension: a computed dimension can be 0 but never less. *)
Theorem resize_target_not_negative
    {C : Collab} {L : PillowLaws}
    (data : bytes) (quality : Z) (lossless : bool) (width height : option Z)
    (img : image) (w h : Z) (i : image) (sz : Z * Z) (f : resample) :
  Image_open data = Ret img -> size img = (w, h) -> 0 <= w -> 0 <= h ->
  (forall n, width = Some n -> 1 <= n) ->
  (forall n, height = Some n -> 1 <= n) ->
  In (i, sz, f)
    (resize_calls (fst (_to_avif_bytes data quality lossless width height))) ->
  0 <= fst sz /\ 0 <= snd sz.
Proof.
  intros Hopen Hsz Hw Hh Hgw Hgh Hin.
  destruct (resize_calls_of_run _ _ _ _ _ _ _ Hopen Hin) as (i1 & Hs1 & Hin1).
  rewrite Hsz in Hs1. clear Hin.
  destruct width as [gw|]; destruct height as [gh|].
  - rewrite optional_resize_both in Hin1 by auto.
    destruct Hin1 as [E|[]]. injection E as _ <- _.
    specialize (Hgw gw eq_refl). specialize (Hgh gh eq_refl). simpl. lia.
  - specialize (Hgw gw eq_refl).
    destruct (optional_resize_width gw i1 w h Hgw Hs1)
      as [(th & P & E)|(_ & e & E)]; rewrite E in Hin1; [|destruct Hin1].
    destruct Hin1 as [E'|[]]. injection E' as _ <- _. simpl.
    apply proportional_nonneg in P; lia.
  - specialize (Hgh gh eq_refl).
    destruct (optional_resize_height gh i1 w h Hgh Hs1)
      as [(tw & P & E)|(_ & e & E)]; rewrite E in Hin1; [|destruct Hin1].
    destruct Hin1 as [E'|[]]. injection E' as _ <- _. simpl.
    apply proportional_nonneg in P; lia.
  - rewrite optional_resize_none in Hin1. destruct Hin1.
Qed.

Lemma resize_target_not_negative_witness : 0 <= fst (1, 0) /\ 0 <= snd (1, 0).
Proof.
  refine (@resize_target_not_negative Sim.collab sim_laws Sim.square49 60 false
            (Some 1) None (Sim.mk_img (lit "RGB") (49, 49)) 49 49
            (Sim.mk_img (lit "RGB") (49, 49)) (1, 0) LANCZOS _ _ _ _ _ _ _).
  - reflexivity.
  - reflexivity.
  - lia.
  - lia.
  - intros n E. injection E as <-. lia.
  - intros n E. discriminate E.
  - simpl. left. reflexivity.
Defined.

(** ** How far the scheme check reads *)

Lemma match_scheme_firstn (url : str) :
  Sre.match_I (lit "^https?://") url
  = Sre.match_I (lit "^https?://") (firstn 8 url).
Proof.
  rewrite !match_scheme.
  destruct url as [|c1 [|c2 [|c3 [|c4 [|c5 [|c6 [|c7 [|c8 rest]]]]]]]];
    reflexivity.
Qed.

Lemma url_rejected_iff `{Collab} url quality lossless width height timeout :
  convert_url_to_avif url quality lossless width height timeout
  = ([], HTTPException 400 (lit "Invalid URL."))
  <-> Sre.match_I (lit "^https?://") url = false.
Proof.
  destruct (Sre.match_I (lit "^https?://") url) eqn:Hm.
  - rewrite (url_handler_run _ _ _ _ _ _ Hm). split; [|discriminate].
    destruct (client_get timeout true url) as [resp|e]; [|discriminate].
    destruct (raise_for_status resp) as [[]|e]; [|discriminate].
    destruct (_to_avif_bytes (content resp) quality lossless width height)
      as [t [a|e]]; discriminate.
  - unfold convert_url_to_avif. rewrite Hm. split; reflexivity.
Qed.

(** X14.  The scheme check of the URL handler reads at most the first
    eight characters: a URL is rejected with 400 exactly when its first
    eight characters alone would be, so whatever follows the scheme (an
    empty host, spaces, anything) is never a reason for the 400. *)
Theorem scheme_check_reads_eight_characters
    {C : Collab}
    (url : str) (quality : Z) (lossless : bool) (width height : option Z)
    (timeout : float) :
  (convert_url_to_avif url quality lossless width height timeout
   = ([], HTTPException 400 (lit "Invalid URL."))
   <-> convert_url_to_avif (firstn 8 url) quality lossless width height timeout
       = ([], HTTPException 400 (lit "Invalid URL.")))
  /\ (forall rest,
      http_scheme url ->
      convert_url_to_avif (url ++ rest) quality lossless width height timeout
      <> ([], HTTPException 400 (lit "Invalid URL."))).
Proof.
  split.
  - rewrite !url_rejected_iff. now rewrite <- match_scheme_firstn.
  - intros rest Hs. rewrite url_rejected_iff.
    assert (Hs' : http_scheme (url ++ rest)).
    { destruct Hs as [(pre & r & -> & F)|(pre & r & -> & F)]; [left|right];
        exists pre, (r ++ rest); (split; [now rewrite app_assoc | assumption]). }
    apply http_scheme_match in Hs'. rewrite Hs'. discriminate.
Qed.

(** ** The file name is its base and an extension *)

Lemma rsplit_last_spec (sep : N) (s : str) :
  match rsplit_last sep s with
  | Some (a, b) => s = a ++ sep :: b /\ ~ In sep b
  | None => ~ In sep s
  end.
Proof.
  induction s as [|c s IH]; simpl; [auto|].
  destruct (rsplit_last sep s) as [[a b]|].
  - destruct IH as [-> Hb]. auto.
  - destruct (N.eqb_spec c sep) as [->|Hne].
    + auto.
    + intros [E|Hin]; [congruence | contradiction].
Qed.

(** X15.  A file name that is present and not empty is the base name
    followed by an extension, where the extension is either empty or one
    dot followed by characters that are not dots: exactly one extension is
    removed, and nothing else of the name is changed. *)
Theorem filename_is_base_and_extension (s : str) :
  s <> [] ->
  exists ext,
    s = base_name (Some s) ++ ext
    /\ (ext = [] \/ exists q, ext = dot :: q /\ ~ In dot q).
Proof.
  intros Hne. rewrite (base_name_given s Hne). unfold rsplit1.
  pose proof (rsplit_last_spec dot s) as Hs.
  destruct (rsplit_last dot s) as [[a b]|]; simpl.
  - destruct Hs as [-> Hb]. exists (dot :: b). split; [reflexivity|].
    right. now exists b.
  - exists []. split; [now rewrite app_nil_r | now left].
Qed.

Lemma filename_is_base_and_extension_witness :
  exists ext,
    lit "holiday.2024.jpeg" = base_name (Some (lit "holiday.2024.jpeg")) ++ ext
    /\ (ext = [] \/ exists q, ext = dot :: q /\ ~ In dot q).
Proof.
  apply (filename_is_base_and_extension (lit "holiday.2024.jpeg")).
  discriminate.
Defined.

(** ** Exact cases of the proportional dimension

    The binary64 computation of [orig * (given / opp)] is exact when the
    ratio is an integer or the inverse of a power of two. *)

Lemma digits2_size p : digits2_pos p = Pos.size p.
Proof. induction p; simpl; congruence. Qed.

Lemma digits2_iter_xO p k :
  digits2_pos (Pos.iter xO p k) = (digits2_pos p + k)%positive.
Proof.
  induction k using Pos.peano_ind.
  - simpl. now rewrite Pos.add_1_r.
  - rewrite Pos.iter_succ. simpl. rewrite IHk. lia.
Qed.

Lemma iter_xO_mul p k : Zpos (Pos.iter xO p k) = Zpos p * 2 ^ Zpos k.
Proof.
  induction k using Pos.peano_ind.
  - simpl. lia.
  - rewrite Pos.iter_succ, Pos2Z.inj_succ, Z.pow_succ_r by lia.
    rewrite Pos2Z.inj_xO, IHk. lia.
Qed.

Lemma digits2_bound p : Zpos p < 2 ^ 53 -> (digits2_pos p <= 53)%positive.
Proof.
  intros Hp. rewrite digits2_size.
  destruct (Pos.leb_spec (Pos.size p) 53) as [H|H]; [assumption|exfalso].
  pose proof (Pos.size_le p) as Hle.
  apply Pos2Z.pos_le_pos in Hle. rewrite Pos2Z.inj_pow in Hle.
  rewrite (Pos2Z.inj_xO p) in Hle.
  assert (H54 : 54 <= Z.pos (Pos.size p)) by lia.
  assert (Hpow : 2 ^ 54 <= 2 ^ Z.pos (Pos.size p)).
  { apply Z.pow_le_mono_r; [lia | exact H54]. }
  change ((2 * 1) ^ Z.pos (Pos.size p)) with (2 ^ Z.pos (Pos.size p)) in Hle.
  change (2 ^ 54) with 18014398509481984 in Hpow.
  change (2 ^ 53) with 9007199254740992 in Hp. lia.
Qed.

(** A normalized mantissa is left as it is by rounding. *)
Lemma round_canonical s mz ez :
  digits2_pos mz = 53%positive -> -1074 <= ez <= 971 ->
  binary_round_aux prec emax s (Zpos mz) ez loc_Exact = S754_finite s mz ez.
Proof.
  intros Hd He.
  assert (Hf : fexp prec emax (Z.pos 53 + ez) - ez = 0).
  { unfold fexp, emin, prec, emax. lia. }
  unfold binary_round_aux, shr_fexp. cbn [Zdigits2]. rewrite Hd, Hf.
  cbn [shr shr_record_of_loc shr_m loc_of_shr_record round_nearest_even Zdigits2].
  rewrite Hd, Hf. cbn [shr shr_m shr_record_of_loc].
  destruct (Z.leb_spec ez (emax - prec)); [reflexivity|].
  unfold emax, prec in *. lia.
Qed.

(** The float of a positive integer below 2^53: normalized mantissa, exact value. *)
Lemma float_of_small p :
  Zpos p < 2 ^ 53 ->
  exists mz ez,
    binary_normalize prec emax (Zpos p) 0 false = S754_finite false mz ez
    /\ digits2_pos mz = 53%positive
    /\ ez = Zpos (digits2_pos p) - 53
    /\ -52 <= ez <= 0
    /\ Zpos mz = Zpos p * 2 ^ (- ez).
Proof.
  intros Hp. pose proof (digits2_bound p Hp) as Hd.
  unfold binary_normalize, binary_round.
  unfold fexp at 1.
  replace (Z.max (Z.pos (digits2_pos p) + 0 - prec) (emin prec emax))
    with (Z.pos (digits2_pos p) - 53)
    by (unfold prec, emax, emin; lia).
  unfold shl_align.
  replace (Z.pos (digits2_pos p) - 53 - 0) with (Z.pos (digits2_pos p) - 53) by lia.
  destruct (Z.pos (digits2_pos p) - 53) as [|k|k] eqn:Ek.
  - exists p, 0. split; [|split; [lia|split; [lia|split; [lia|simpl; lia]]]].
    apply round_canonical; lia.
  - lia.
  - exists (Pos.iter xO p k), (Z.neg k).
    assert (Hk : (digits2_pos p + k = 53)%positive) by lia.
    split; [|split; [|split; [|split]]].
    + apply round_canonical; [now rewrite digits2_iter_xO | lia].
    + now rewrite digits2_iter_xO.
    + lia.
    + lia.
    + rewrite iter_xO_mul. reflexivity.
Qed.

Lemma iter_pos_iter {A} (f : A -> A) n x : iter_pos f n x = Pos.iter f x n.
Proof.
  revert x. induction n as [n IH|n IH|]; intros x; simpl.
  - rewrite !IH. now rewrite !Pos.iter_swap.
  - now rewrite !IH.
  - reflexivity.
Qed.

Lemma shr_exact j : forall m,
  iter_pos shr_1 j {| shr_m := Zpos m * 2 ^ Zpos j; shr_r := false; shr_s := false |}
  = {| shr_m := Zpos m; shr_r := false; shr_s := false |}.
Proof.
  induction j using Pos.peano_ind; intros m; rewrite iter_pos_iter.
  - change (2 ^ 1) with 2.
    replace (Z.pos m * 2) with (Z.pos m~0) by lia. reflexivity.
  - rewrite Pos.iter_succ, Pos2Z.inj_succ, Z.pow_succ_r by lia.
    replace (Z.pos m * (2 * 2 ^ Z.pos j)) with (Z.pos m~0 * 2 ^ Z.pos j) by lia.
    rewrite <- iter_pos_iter, IHj. reflexivity.
Qed.

Lemma digits_range m : 2 ^ (Zpos (digits2_pos m) - 1) <= Zpos m < 2 ^ Zpos (digits2_pos m).
Proof.
  rewrite digits2_size. split.
  - pose proof (Pos.size_le m) as H. apply Pos2Z.pos_le_pos in H.
    rewrite Pos2Z.inj_pow, (Pos2Z.inj_xO m) in H.
    change (Z.pos 2) with 2 in H.
    replace (Zpos (Pos.size m)) with (Z.succ (Zpos (Pos.size m) - 1)) in H by lia.
    rewrite Z.pow_succ_r in H by lia. lia.
  - pose proof (Pos.size_gt m) as H. apply Pos2Z.pos_lt_pos in H.
    now rewrite Pos2Z.inj_pow in H.
Qed.

Lemma digits_unique m d : 2 ^ (d - 1) <= Zpos m < 2 ^ d -> Zpos (digits2_pos m) = d.
Proof.
  intros [H1 H2]. pose proof (digits_range m) as [H3 H4].
  destruct (Z.lt_trichotomy (Zpos (digits2_pos m)) d) as [Hlt|[E|Hgt]]; [|assumption|].
  - assert (2 ^ Zpos (digits2_pos m) <= 2 ^ (d - 1)) by (apply Z.pow_le_mono_r; lia). lia.
  - assert (2 ^ d <= 2 ^ (Zpos (digits2_pos m) - 1)) by (apply Z.pow_le_mono_r; lia). lia.
Qed.

(** Rounding a mantissa that is a normalized one shifted left gives the normalized one. *)
Lemma round_exact s m e mz ez j :
  digits2_pos mz = 53%positive -> -1074 <= ez <= 971 ->
  0 <= j -> Zpos m = Zpos mz * 2 ^ j -> e = ez - j ->
  binary_round_aux prec emax s (Zpos m) e loc_Exact = S754_finite s mz ez.
Proof.
  intros Hd He Hj Hm ->.
  destruct j as [|j|j]; [| |lia].
  - rewrite Z.pow_0_r, Z.mul_1_r in Hm. injection Hm as ->.
    rewrite Z.sub_0_r. now apply round_canonical.
  - assert (Hdm : Zpos (digits2_pos m) = 53 + Zpos j).
    { apply digits_unique. rewrite Hm.
      pose proof (digits_range mz) as [H1 H2]. rewrite Hd in H1, H2.
      replace (53 + Z.pos j - 1) with (52 + Z.pos j) by lia.
      rewrite !Z.pow_add_r by lia. change (53 - 1) with 52 in H1.
      assert (0 < 2 ^ Z.pos j) by (apply Z.pow_pos_nonneg; lia). nia. }
    assert (Hf : fexp prec emax (Zpos (digits2_pos m) + (ez - Zpos j)) - (ez - Zpos j) = Zpos j).
    { rewrite Hdm. unfold fexp, emin, prec, emax. lia. }
    assert (Hf0 : fexp prec emax (Z.pos 53 + (ez - Zpos j + Zpos j)) - (ez - Zpos j + Zpos j) = 0).
    { unfold fexp, emin, prec, emax. lia. }
    unfold binary_round_aux, shr_fexp. cbn [Zdigits2]. rewrite Hf.
    cbn [shr shr_record_of_loc]. rewrite Hm, shr_exact.
    cbn [shr_m loc_of_shr_record round_nearest_even Zdigits2].
    rewrite Hd, Hf0. cbn [shr shr_m shr_record_of_loc].
    replace (ez - Z.pos j + Z.pos j) with ez by lia.
    destruct (Z.leb_spec ez (emax - prec)); [reflexivity|].
    unfold emax, prec in *. lia.
Qed.

Lemma pow2_lt_inv x y : 0 <= y -> 2 ^ x < 2 ^ y -> x < y.
Proof. intros Hy H. apply (Z.pow_lt_mono_r_iff 2); lia. Qed.

(** Digits of a product. *)
Lemma digits_mul a b :
  Zpos (digits2_pos a) + Zpos (digits2_pos b) - 1 <= Zpos (digits2_pos (a * b))
  <= Zpos (digits2_pos a) + Zpos (digits2_pos b).
Proof.
  pose proof (digits_range a) as [A1 A2].
  pose proof (digits_range b) as [B1 B2].
  pose proof (digits_range (a * b)) as [C1 C2].
  rewrite Pos2Z.inj_mul in C1, C2.
  set (da := Zpos (digits2_pos a)) in *. set (db := Zpos (digits2_pos b)) in *.
  set (dc := Zpos (digits2_pos (a * b))) in *.
  assert (Hda : 1 <= da) by (subst da; lia).
  assert (Hdb : 1 <= db) by (subst db; lia).
  assert (Hdc : 1 <= dc) by (subst dc; lia).
  split.
  - assert (H : 2 ^ (da - 1 + (db - 1)) < 2 ^ dc).
    { rewrite Z.pow_add_r by lia.
      assert (0 < 2 ^ (da - 1)) by (apply Z.pow_pos_nonneg; lia).
      assert (0 < 2 ^ (db - 1)) by (apply Z.pow_pos_nonneg; lia). nia. }
    apply pow2_lt_inv in H; lia.
  - assert (H : 2 ^ (dc - 1) < 2 ^ (da + db)).
    { rewrite Z.pow_add_r by lia.
      assert (0 < 2 ^ da) by (apply Z.pow_pos_nonneg; lia).
      assert (0 < 2 ^ db) by (apply Z.pow_pos_nonneg; lia). nia. }
    apply pow2_lt_inv in H; lia.
Qed.

(** The quotient of [k * b] by [b] is the float of [k]. *)
Lemma div_exact k b :
  Zpos k < 2 ^ 53 ->
  SFdiv prec emax (exact (Zpos k * Zpos b)) (exact (Zpos b))
  = binary_normalize prec emax (Zpos k) 0 false.
Proof.
  intros Hk.
  destruct (float_of_small k Hk) as (mz & ez & -> & Hd & Hez & He & Hm).
  pose proof (digits_mul k b) as [D1 D2].
  pose proof (digits2_bound k Hk) as Dk.
  change (Zpos k * Zpos b) with (Zpos (k * b)).
  unfold exact, SFdiv, SFdiv_core_binary. cbn [xorb Zdigits2].
  set (d1 := Zpos (digits2_pos (k * b))) in *.
  set (d2 := Zpos (digits2_pos b)) in *.
  set (dk := Zpos (digits2_pos k)) in *.
  assert (He' : Z.min (fexp prec emax (d1 + 0 - (d2 + 0))) (0 - 0) = d1 - d2 - 53).
  { unfold fexp, emin, prec, emax. lia. }
  rewrite He'.
  set (s := 0 - 0 - (d1 - d2 - 53)).
  assert (Hs : 0 <= s) by (subst s; lia).
  assert (Hm' : match s with
                | 0 => Z.pos (k * b)
                | Z.pos _ => Z.shiftl (Z.pos (k * b)) s
                | Z.neg _ => 0
                end = Zpos (k * b) * 2 ^ s).
  { destruct s as [|ps|ps]; [rewrite Z.pow_0_r; lia| |lia].
    now rewrite Z.shiftl_mul_pow2 by lia. }
  rewrite Hm'.
  assert (Hpos : 0 < Zpos k * 2 ^ s).
  { assert (0 < 2 ^ s) by (apply Z.pow_pos_nonneg; lia). nia. }
  replace (Zpos (k * b) * 2 ^ s) with ((Zpos k * 2 ^ s) * Zpos b) by lia.
  pose proof (Z.div_mul (Zpos k * 2 ^ s) (Z.pos b) ltac:(lia)) as Hq.
  pose proof (Z.mod_mul (Zpos k * 2 ^ s) (Z.pos b) ltac:(lia)) as Hr.
  unfold Z.div in Hq. unfold Z.modulo in Hr.
  destruct (Z.div_eucl (Z.pos k * 2 ^ s * Z.pos b) (Z.pos b)) as [q r].
  subst q r.
  replace (new_location (Z.pos b) 0) with loc_Exact
    by (unfold new_location, new_location_even, new_location_odd;
        destruct (Z.even (Z.pos b)); reflexivity).
  destruct (Zpos k * 2 ^ s) as [|m|m] eqn:Em; try lia.
  apply (round_exact false m (d1 - d2 - 53) mz ez (s + ez)); try lia.
  rewrite Hm, <- Em. rewrite <- Z.mul_assoc, <- Z.pow_add_r by lia.
  f_equal. f_equal. lia.
Qed.

(** The product of the floats of [a] and [k] is the float of [a * k]. *)
Lemma mul_exact a k :
  Zpos a * Zpos k < 2 ^ 53 ->
  SFmul prec emax (binary_normalize prec emax (Zpos a) 0 false)
                  (binary_normalize prec emax (Zpos k) 0 false)
  = binary_normalize prec emax (Zpos (a * k)) 0 false.
Proof.
  intros Hn.
  assert (Ha : Zpos a < 2 ^ 53) by nia.
  assert (Hk : Zpos k < 2 ^ 53) by nia.
  destruct (float_of_small a Ha) as (mza & eza & -> & Hda & Heza & Hea & Hma).
  destruct (float_of_small k Hk) as (mzk & ezk & -> & Hdk & Hezk & Hek & Hmk).
  destruct (float_of_small (a * k) Hn) as (mzn & ezn & -> & Hdn & Hezn & Hen & Hmn).
  pose proof (digits_mul a k) as [D1 D2].
  unfold SFmul. cbn [xorb].
  apply (round_exact false (mza * mzk) (eza + ezk) mzn ezn (ezn - (eza + ezk)));
    try lia.
  rewrite Pos2Z.inj_mul, Hma, Hmk, Hmn, Pos2Z.inj_mul.
  rewrite <- !Z.mul_assoc. f_equal.
  rewrite (Z.mul_comm (2 ^ (- eza))), <- !Z.mul_assoc. f_equal.
  rewrite <- !Z.pow_add_r by lia. f_equal. lia.
Qed.

Lemma trunc_float_of_small p :
  Zpos p < 2 ^ 53 -> trunc (binary_normalize prec emax (Zpos p) 0 false) = Some (Zpos p).
Proof.
  intros Hp.
  destruct (float_of_small p Hp) as (mz & ez & -> & Hd & _ & He & Hm).
  unfold trunc. destruct ez as [|k|k]; try lia.
  - rewrite Z.shiftl_0_r. simpl in Hm. f_equal. lia.
  - rewrite Z.shiftr_div_pow2 by lia. rewrite Hm. simpl Z.opp.
    rewrite Z.div_mul; [reflexivity|]. apply Z.pow_nonzero; lia.
Qed.

(** Scaling by an integer factor is exact. *)
Lemma proportional_integer_factor (a k b : Z) :
  0 < a -> 0 < k -> 0 < b -> a * k < 2 ^ 53 ->
  proportional a (k * b) b = Some (a * k).
Proof.
  intros Ha Hk Hb Hn.
  destruct a as [|a|a]; try lia. destruct k as [|k|k]; try lia.
  destruct b as [|b|b]; try lia.
  unfold proportional.
  rewrite div_exact by nia. rewrite mul_exact by assumption.
  now rewrite trunc_float_of_small.
Qed.

(** The quotient of [g] by [g * 2^j] is the float of [2^-j]. *)
Lemma div_pow2 g j :
  0 <= j <= 1000 ->
  SFdiv prec emax (exact (Zpos g)) (exact (Zpos g * 2 ^ j))
  = S754_finite false 4503599627370496 (-52 - j).
Proof.
  intros Hj.
  assert (Hp : 0 < 2 ^ j) by (apply Z.pow_pos_nonneg; lia).
  destruct (Zpos g * 2 ^ j) as [|b|b] eqn:Eb; try lia.
  assert (Hdb : Zpos (digits2_pos b) = Zpos (digits2_pos g) + j).
  { apply digits_unique. rewrite <- Eb.
    pose proof (digits_range g) as [G1 G2].
    replace (Zpos (digits2_pos g) + j - 1) with (Zpos (digits2_pos g) - 1 + j) by lia.
    rewrite !Z.pow_add_r by lia. nia. }
  unfold exact, SFdiv, SFdiv_core_binary. cbn [xorb Zdigits2].
  rewrite Hdb.
  assert (He' : Z.min (fexp prec emax (Zpos (digits2_pos g) + 0
                                       - (Zpos (digits2_pos g) + j + 0))) (0 - 0)
                = - j - 53).
  { unfold fexp, emin, prec, emax. lia. }
  rewrite He'.
  replace (0 - 0 - (- j - 53)) with (j + 53) by lia.
  assert (Hm' : match j + 53 with
                | 0 => Z.pos g
                | Z.pos _ => Z.shiftl (Z.pos g) (j + 53)
                | Z.neg _ => 0
                end = 2 ^ 53 * Zpos b).
  { destruct (j + 53) as [|ps|ps] eqn:Es; try lia.
    rewrite Z.shiftl_mul_pow2 by lia. rewrite <- Es, Z.pow_add_r by lia.
    rewrite <- Eb. lia. }
  rewrite Hm'.
  pose proof (Z.div_mul (2 ^ 53) (Z.pos b) ltac:(lia)) as Hq.
  pose proof (Z.mod_mul (2 ^ 53) (Z.pos b) ltac:(lia)) as Hr.
  unfold Z.div in Hq. unfold Z.modulo in Hr.
  destruct (Z.div_eucl (2 ^ 53 * Z.pos b) (Z.pos b)) as [q r].
  subst q r.
  replace (new_location (Z.pos b) 0) with loc_Exact
    by (unfold new_location, new_location_even, new_location_odd;
        destruct (Z.even (Z.pos b)); reflexivity).
  change (2 ^ 53) with (Zpos 9007199254740992).
  apply (round_exact false 9007199254740992 (- j - 53)
           4503599627370496 (-52 - j) 1); try lia; reflexivity.
Qed.

(** Scaling down by a power of two gives the floor of the exact quotient. *)
Lemma proportional_power_of_two (a g j : Z) :
  0 < a < 2 ^ 53 -> 0 < g -> 0 <= j <= 1000 ->
  proportional a g (g * 2 ^ j) = Some (a / 2 ^ j).
Proof.
  intros Ha Hg Hj.
  destruct a as [|a|a]; try lia. destruct g as [|g|g]; try lia.
  unfold proportional. rewrite div_pow2 by assumption.
  destruct (float_of_small a (proj2 Ha)) as (mz & ez & -> & Hd & _ & He & Hm).
  unfold SFmul. cbn [xorb].
  rewrite (round_exact false (mz * 4503599627370496) (ez + (-52 - j))
             mz (ez - j) 52) by (try lia; reflexivity).
  assert (Hp : 0 < 2 ^ j) by (apply Z.pow_pos_nonneg; lia).
  assert (Hpe : 0 < 2 ^ (- ez)) by (apply Z.pow_pos_nonneg; lia).
  unfold trunc. destruct (ez - j) as [|k|k] eqn:Ek; try lia.
  - assert (ez = 0) by lia. assert (j = 0) by lia. subst.
    rewrite Z.shiftl_0_r, Z.pow_0_r, Z.div_1_r. simpl in Hm. f_equal. lia.
  - rewrite Z.shiftr_div_pow2 by lia. f_equal.
    replace (Z.pos k) with (- ez + j) by lia.
    rewrite Hm, Z.pow_add_r by lia.
    rewrite (Z.mul_comm (2 ^ (- ez)) (2 ^ j)).
    rewrite Z.div_mul_cancel_r by lia. reflexivity.
Qed.

Lemma normalized_size `{Collab} `{!PillowLaws} img i1 :
  normalizes_to img i1 -> size i1 = size img.
Proof.
  intros [[_ ->]|[_ Ec]]; [reflexivity|]. exact (convert_size _ _ _ Ec).
Qed.

(** X16.  Asking for an integer multiple [k] of the image's height (or of
    its width) resizes to exactly [k] times the size: the computed
    dimension is [k * w] (or [k * h]) with no rounding loss, for every
    image size whose multiple stays below 2^53.  With [k = 1] the target
    is the image's own size. *)
Theorem integer_factor_is_exact
    {C : Collab} {L : PillowLaws}
    (data : bytes) (quality : Z) (lossless : bool)
    (img i1 : image) (w h k : Z) :
  Image_open data = Ret img -> normalizes_to img i1 -> size img = (w, h) ->
  0 < w -> 0 < h -> 0 < k -> k * w < 2 ^ 53 -> k * h < 2 ^ 53 ->
  resize_calls
    (fst (_to_avif_bytes data quality lossless None (Some (k * h))))
  = [(i1, (k * w, k * h), LANCZOS)]
  /\ resize_calls
       (fst (_to_avif_bytes data quality lossless (Some (k * w)) None))
     = [(i1, (k * w, k * h), LANCZOS)].
Proof.
  intros Hopen Hn Hsz Hw Hh Hk Hkw Hkh.
  pose proof (normalized_size _ _ Hn) as Hs1. rewrite Hsz in Hs1.
  split; apply (resize_request _ _ _ _ _ _ _ _ Hopen Hn).
  - destruct (optional_resize_height (k * h) i1 w h ltac:(nia) Hs1)
      as [(tw & P & E)|(P & _)];
      rewrite proportional_integer_factor in P by lia; [|discriminate].
    injection P as <-. now rewrite (Z.mul_comm k w).
  - destruct (optional_resize_width (k * w) i1 w h ltac:(nia) Hs1)
      as [(th & P & E)|(P & _)];
      rewrite proportional_integer_factor in P by lia; [|discriminate].
    injection P as <-. now rewrite (Z.mul_comm k h).
Qed.

Lemma integer_factor_is_exact_witness :
  resize_calls
    (fst (@_to_avif_bytes Sim.collab Sim.picture 60 false None (Some (3 * 600))))
  = [(Sim.mk_img (lit "RGBA") (800, 600), (3 * 800, 3 * 600), LANCZOS)]
  /\ resize_calls
       (fst (@_to_avif_bytes Sim.collab Sim.picture 60 false (Some (3 * 800)) None))
     = [(Sim.mk_img (lit "RGBA") (800, 600), (3 * 800, 3 * 600), LANCZOS)].
Proof.
  refine (@integer_factor_is_exact Sim.collab sim_laws Sim.picture 60 false
            (Sim.mk_img (lit "P") (800, 600))
            (Sim.mk_img (lit "RGBA") (800, 600)) 800 600 3 _ _ _ _ _ _ _ _).
  - reflexivity.
  - right. split; [|reflexivity]. intros [E|E]; discriminate E.
  - reflexivity.
  - lia.
  - lia.
  - lia.
  - reflexivity.
  - reflexivity.
Defined.

(** X17.  Asking for the image's height divided by a power of two (or its
    width so divided) gives the other dimension divided by the same power
    of two, rounded down: the computed dimension is [w / 2^j] (or
    [h / 2^j]) exactly. *)
Theorem power_of_two_reduction
    {C : Collab} {L : PillowLaws}
    (data : bytes) (quality : Z) (lossless : bool)
    (img i1 : image) (w h g j : Z) :
  Image_open data = Ret img -> normalizes_to img i1 -> size img = (w, h) ->
  0 < w < 2 ^ 53 -> 0 < h < 2 ^ 53 -> 0 < g -> 0 <= j <= 1000 ->
  (h = g * 2 ^ j ->
   resize_calls (fst (_to_avif_bytes data quality lossless None (Some g)))
   = [(i1, (w / 2 ^ j, g), LANCZOS)])
  /\ (w = g * 2 ^ j ->
      resize_calls (fst (_to_avif_bytes data quality lossless (Some g) None))
      = [(i1, (g, h / 2 ^ j), LANCZOS)]).
Proof.
  intros Hopen Hn Hsz Hw Hh Hg Hj.
  pose proof (normalized_size _ _ Hn) as Hs1. rewrite Hsz in Hs1.
  split; intros E0; apply (resize_request _ _ _ _ _ _ _ _ Hopen Hn).
  - destruct (optional_resize_height g i1 w h ltac:(lia) Hs1)
      as [(tw & P & E)|(P & _)];
      rewrite E0, proportional_power_of_two in P by lia; [|discriminate].
    injection P as <-. exact E.
  - destruct (optional_resize_width g i1 w h ltac:(lia) Hs1)
      as [(th & P & E)|(P & _)];
      rewrite E0, proportional_power_of_two in P by lia; [|discriminate].
    injection P as <-. exact E.
Qed.

Lemma power_of_two_reduction_witness :
  resize_calls
    (fst (@_to_avif_bytes Sim.collab Sim.picture 60 false (Some 25) None))
  = [(Sim.mk_img (lit "RGBA") (800, 600), (25, 600 / 2 ^ 5), LANCZOS)].
Proof.
  refine (proj2 (@power_of_two_reduction Sim.collab sim_laws Sim.picture 60 false
                   (Sim.mk_img (lit "P") (800, 600))
                   (Sim.mk_img (lit "RGBA") (800, 600)) 800 600 25 5
                   _ _ _ _ _ _ _) _).
  - reflexivity.
  - right. split; [|reflexivity]. intros [E|E]; discriminate E.
  - reflexivity.
  - split; [lia | reflexivity].
  - split; [lia | reflexivity].
  - lia.
  - lia.
  - reflexivity.
Defined.

(** ** Network calls *)

Lemma routine_makes_no_fetch `{Collab} data quality lossless width height :
  forall ev, In ev (fst (_to_avif_bytes data quality lossless width height)) ->
             rank ev <> 0%nat.
Proof.
  intros ev Hin.
  pose proof (routine_after_zero data quality lossless width height) as Hs.
  inversion Hs as [|? ? _ Hall]; subst.
  rewrite Forall_forall in Hall.
  specialize (Hall (rank ev) (in_map rank _ _ Hin)). lia.
Qed.

(** X18.  The only network call a request can make is one GET of the URL
    it was given, with redirects followed and the caller's timeout; the
    upload handler and the conversion routine make no network call. *)
Theorem fetch_only_the_given_url
    {C : Collab}
    (data : bytes) (file : UploadFile) (url : str) (quality : Z)
    (lossless : bool) (width height : option Z) (timeout : float)
    (t' : float) (f : bool) (u : str) :
  (In (EvGet t' f u)
      (fst (convert_url_to_avif url quality lossless width height timeout)) ->
   t' = timeout /\ f = true /\ u = url)
  /\ ~ In (EvGet t' f u)
         (fst (convert_file_to_avif file quality lossless width height))
  /\ ~ In (EvGet t' f u)
         (fst (_to_avif_bytes data quality lossless width height)).
Proof.
  assert (Hno : forall d, ~ In (EvGet t' f u)
                            (fst (_to_avif_bytes d quality lossless width height))).
  { intros d Hin. now apply routine_makes_no_fetch in Hin. }
  split; [|split; [|apply Hno]].
  - destruct (Sre.match_I (lit "^https?://") url) eqn:Hm.
    + rewrite (url_handler_run _ _ _ _ _ _ Hm).
      assert (Hhd : forall t, In (EvGet t' f u) (EvGet timeout true url :: t) ->
                              ~ In (EvGet t' f u) t ->
                              t' = timeout /\ f = true /\ u = url).
      { intros t [E|Hin] Hn; [|contradiction]. now injection E as <- <- <-. }
      destruct (client_get timeout true url) as [resp|e];
        [|intros Hin; apply (Hhd [] Hin); intros []].
      destruct (raise_for_status resp) as [[]|e];
        [|intros Hin; apply (Hhd [] Hin); intros []].
      pose proof (Hno (content resp)) as Hn.
      destruct (_to_avif_bytes (content resp) quality lossless width height)
        as [t [a|e]]; simpl in *; intros Hin; now apply (Hhd t).
    + unfold convert_url_to_avif. rewrite Hm. intros [].
  - unfold convert_file_to_avif.
    destruct (negb (is_image_type (content_type file))); [intros []|].
    unfold bind, call, ret.
    destruct (read file) as [d|e]; [|intros [E|[]]; discriminate E].
    pose proof (Hno d) as Hn.
    destruct (_to_avif_bytes d quality lossless width height) as [t [a|e]];
      simpl in *; rewrite ?app_nil_r; intros [E|Hin];
      try discriminate E; contradiction.
Qed.
